(** * Route data: key matching, redirect interception and the refetch registry

    A shallow embedding of [packages/start/data/createRouteData.tsx]:
    the React-Query style key matcher ([partialMatch], [partialDeepEqual]),
    the redirect handler ([handleResponse]), the fetch wrapper
    ([resourceFetcher]), the creation of a route-data resource
    ([createRouteData]) and the process-wide set of refetch handles
    ([resources], [refetchRouteData]).  The reconciling storage cell
    ([createDeepSignal]) takes no part in the statements below and is left
    out. *)

From Stdlib Require Import ZArith Lia Bool Ascii String List.
From stdpp Require Import base option list strings gmap.

Local Open Scope string_scope.
Local Open Scope Z_scope.

(** ** Completions

    A JavaScript computation either completes normally or throws.  [E] is the
    type of what is thrown. *)

Inductive completion (E A : Type) : Type :=
| Ok (x : A)
| Throw (e : E).

Arguments Ok {E A} x.
Arguments Throw {E A} e.

Definition bind {E A B : Type} (c : completion E A) (k : A -> completion E B)
  : completion E B :=
  match c with
  | Ok x => k x
  | Throw e => Throw e
  end.

Notation "'let*' x ':=' c 'in' k" := (bind c (fun x => k))
  (at level 10, x name, c at level 100, k at level 200, only parsing).

(** Errors raised by the language itself. *)
Inductive jsError : Type :=
| TypeError (msg : string).

Module JS.

(** Own property names: [Index i] is the canonical numeric name of the array
    index [i] (["0"], ["1"], ...), [Name s] any other name. *)
Inductive propKey : Type :=
| Index (i : nat)
| Name (s : string).

(** Key values: the data a route key or a refresh key is built from.
    Numbers are the integer-valued ones and [NaN]; an array is its list of
    elements, a record (an object whose prototype is [Object.prototype]) its
    own enumerable properties in [Object.keys] order. *)
#[warnings="-register-all"]
Inductive value : Type :=
| VUndefined
| VNull
| VBool (b : bool)
| VNum (n : Z)
| VNaN
| VStr (s : string)
| VArr (elems : list value)
| VObj (props : list (propKey * value)).

(** The built-in objects that reading a property of an array or of a record
    can yield through the prototype chain: the two prototypes and the
    functions they hold ([constructor] included). *)
Inductive builtin : Type :=
| ObjectPrototype
| ArrayPrototype
| ObjectMethod (name : string)
| ArrayMethod (name : string).

(** What a comparison has on its left: a key value, or a built-in that
    [a[key]] has read.  The right side, taken from the refresh key, is always
    a key value. *)
Inductive operand : Type :=
| Data (v : value)
| Builtin (b : builtin).

Coercion Data : value >-> operand.

Inductive jstype : Type :=
| TUndefined | TObject | TBoolean | TNumber | TString | TFunction.

Definition typeof (v : value) : jstype :=
  match v with
  | VUndefined => TUndefined
  | VNull => TObject
  | VBool _ => TBoolean
  | VNum _ => TNumber
  | VNaN => TNumber
  | VStr _ => TString
  | VArr _ => TObject
  | VObj _ => TObject
  end.

Definition typeofO (a : operand) : jstype :=
  match a with
  | Data v => typeof v
  | Builtin ObjectPrototype => TObject
  | Builtin ArrayPrototype => TObject
  | Builtin (ObjectMethod _) => TFunction
  | Builtin (ArrayMethod _) => TFunction
  end.

Definition jstype_eqb (s t : jstype) : bool :=
  match s, t with
  | TUndefined, TUndefined | TObject, TObject | TBoolean, TBoolean
  | TNumber, TNumber | TString, TString | TFunction, TFunction => true
  | _, _ => false
  end.

Definition propKey_eqb (j k : propKey) : bool :=
  match j, k with
  | Index i, Index i' => Nat.eqb i i'
  | Name s, Name s' => String.eqb s s'
  | _, _ => false
  end.

(** [ToBoolean]. *)
Definition truthy (v : value) : bool :=
  match v with
  | VUndefined | VNull | VNaN => false
  | VBool b => b
  | VNum n => negb (n =? 0)
  | VStr s => negb (String.eqb s "")
  | VArr _ | VObj _ => true
  end.

Definition truthyO (a : operand) : bool :=
  match a with
  | Data v => truthy v
  | Builtin _ => true
  end.

(** [a === b].  Primitives compare by value, and [NaN] is equal to
    nothing.  Two arrays or records are [===] only when they are the same
    object; the keys compared here are built separately by the route and by
    the caller of [refetchRouteData], so they are distinct objects.
    [partialDeepEqual_same_object] below shows that, [NaN] apart, the
    structural path gives [true] on one object compared with itself as well. *)
Definition strictEq (a b : value) : bool :=
  match a, b with
  | VUndefined, VUndefined => true
  | VNull, VNull => true
  | VBool x, VBool y => Bool.eqb x y
  | VNum x, VNum y => x =? y
  | VStr x, VStr y => String.eqb x y
  | _, _ => false
  end.

(** A built-in is never [===] to a value of the refresh key. *)
Definition strictEqO (a : operand) (b : value) : bool :=
  match a with
  | Data v => strictEq v b
  | Builtin _ => false
  end.

(** The own property [k] of a record, if it has one. *)
Fixpoint lookupOwn (k : propKey) (ps : list (propKey * value)) : option value :=
  match ps with
  | [] => None
  | (k', v) :: rest => if propKey_eqb k k' then Some v else lookupOwn k rest
  end.

(** The function-valued own properties of [Object.prototype], each with the
    [length] of the function (ECMAScript 2023, Annex B included);
    [constructor] is the function [Object].  The accessor [__proto__] is
    handled apart. *)
Definition objectPrototypeMethods : list (string * nat) :=
  [("constructor", 1); ("__defineGetter__", 2); ("__defineSetter__", 2);
   ("hasOwnProperty", 1); ("__lookupGetter__", 1); ("__lookupSetter__", 1);
   ("isPrototypeOf", 1); ("propertyIsEnumerable", 1); ("toString", 0);
   ("valueOf", 0); ("toLocaleString", 0)]%nat.

(** The function-valued own properties of [Array.prototype] (ECMAScript
    2023); [constructor] is the function [Array]. *)
Definition arrayPrototypeMethods : list (string * nat) :=
  [("constructor", 1); ("at", 1); ("concat", 1); ("copyWithin", 2); ("fill", 1);
   ("find", 1); ("findIndex", 1); ("findLast", 1); ("findLastIndex", 1);
   ("lastIndexOf", 1); ("pop", 0); ("push", 1); ("reverse", 0); ("shift", 0);
   ("unshift", 1); ("slice", 2); ("sort", 1); ("splice", 2); ("includes", 1);
   ("indexOf", 1); ("join", 1); ("keys", 0); ("entries", 0); ("values", 0);
   ("forEach", 1); ("filter", 1); ("flat", 0); ("flatMap", 1); ("map", 1);
   ("every", 1); ("some", 1); ("reduce", 1); ("reduceRight", 1);
   ("toLocaleString", 0); ("toString", 0); ("toReversed", 0); ("toSorted", 1);
   ("toSpliced", 2); ("with", 2)]%nat.

Fixpoint methodLength (table : list (string * nat)) (name : string) : option nat :=
  match table with
  | [] => None
  | (n, len) :: rest => if String.eqb n name then Some len else methodLength rest name
  end.

(** The property [k] as found on [Object.prototype], for a receiver whose
    prototype is [proto]: the accessor [__proto__] yields the receiver's
    prototype, a method name its function, anything else [undefined]. *)
Definition objectPrototypeProp (proto : operand) (k : propKey) : operand :=
  match k with
  | Index _ => Data VUndefined
  | Name s =>
      if String.eqb s "__proto__" then proto
      else match methodLength objectPrototypeMethods s with
           | Some _ => Builtin (ObjectMethod s)
           | None => Data VUndefined
           end
  end.

(** The property [k] as found on [Array.prototype], which inherits from
    [Object.prototype]. *)
Definition arrayPrototypeProp (proto : operand) (k : propKey) : operand :=
  match k with
  | Index _ => Data VUndefined
  | Name s =>
      match methodLength arrayPrototypeMethods s with
      | Some _ => Builtin (ArrayMethod s)
      | None => objectPrototypeProp proto k
      end
  end.

(** The property [k] of an operand that is neither [null] nor [undefined]:
    an own property if there is one, else what the prototype chain gives,
    else [undefined].  Of a primitive and of a function the code only ever
    reads [length]; their other properties are not modelled. *)
Definition propOf (a : operand) (k : propKey) : operand :=
  match a with
  | Data (VStr s) =>
      match k with
      | Name n =>
          if String.eqb n "length" then Data (VNum (Z.of_nat (String.length s)))
          else Data VUndefined
      | Index i =>
          match String.get i s with
          | Some c => Data (VStr (String c EmptyString))
          | None => Data VUndefined
          end
      end
  | Data (VArr l) =>
      match k with
      | Index i => Data (nth i l VUndefined)
      | Name n =>
          if String.eqb n "length" then Data (VNum (Z.of_nat (List.length l)))
          else arrayPrototypeProp (Builtin ArrayPrototype) k
      end
  | Data (VObj ps) =>
      match lookupOwn k ps with
      | Some v => Data v
      | None => objectPrototypeProp (Builtin ObjectPrototype) k
      end
  | Data _ => Data VUndefined
  | Builtin ObjectPrototype => objectPrototypeProp (Data VNull) k
  | Builtin ArrayPrototype =>
      match k with
      | Index _ => Data VUndefined
      | Name n =>
          if String.eqb n "length" then Data (VNum 0)
          else arrayPrototypeProp (Builtin ObjectPrototype) k
      end
  | Builtin (ObjectMethod m) =>
      match k with
      | Index _ => Data VUndefined
      | Name n =>
          if String.eqb n "length"
          then Data (VNum (Z.of_nat (default 0%nat (methodLength objectPrototypeMethods m))))
          else Data VUndefined
      end
  | Builtin (ArrayMethod m) =>
      match k with
      | Index _ => Data VUndefined
      | Name n =>
          if String.eqb n "length"
          then Data (VNum (Z.of_nat (default 0%nat (methodLength arrayPrototypeMethods m))))
          else Data VUndefined
      end
  end.

(** [a[key]] and [a.length]: reading a property of [null] or of
    [undefined] throws. *)
Definition getProp (a : operand) (k : propKey) : completion jsError operand :=
  match a with
  | Data VUndefined => Throw (TypeError "Cannot read properties of undefined")
  | Data VNull => Throw (TypeError "Cannot read properties of null")
  | _ => Ok (propOf a k)
  end.

(** [Array.isArray]. *)
Definition isArray (v : value) : bool :=
  match v with VArr _ => true | _ => false end.

Fixpoint indexedFrom (i : nat) (l : list value) : list (propKey * value) :=
  match l with
  | [] => []
  | v :: rest => (Index i, v) :: indexedFrom (S i) rest
  end.

(** The pairs [(key, b[key])] for [key] in [Object.keys(b)], for an array
    or a record [b]. *)
Definition ownEntries (b : value) : list (propKey * value) :=
  match b with
  | VArr l => indexedFrom 0 l
  | VObj ps => ps
  | _ => []
  end.

End JS.

Import JS.

Module KeyMatcher.

(** [ensureQueryKeyArray]. *)
Definition ensureQueryKeyArray (v : value) : value :=
  if isArray v then v else VArr [v].

Definition isObjectType (a : operand) : bool := jstype_eqb (typeofO a) TObject.

(** [a.length && !b.length], as a boolean: [b.length] is read only when
    [a.length] is truthy. *)
Definition lengthGuard (a : operand) (b : value) : completion jsError bool :=
  let* la := getProp a (Name "length") in
  if truthyO la
  then let* lb := getProp b (Name "length") in Ok (negb (truthyO lb))
  else Ok false.

(** [partialDeepEqual(a, b)]: checks if [b] partially matches with [a].
    The two inner loops are [Object.keys(b).some(key => !partialDeepEqual(a[key], b[key]))]
    for an array and for a record [b]. *)
Fixpoint partialDeepEqual (a : operand) (b : value) {struct b}
  : completion jsError bool :=
  if strictEqO a b then Ok true
  else if negb (jstype_eqb (typeofO a) (typeof b)) then Ok false
  else
    let* guard := lengthGuard a b in
    if guard then Ok false
    else if truthyO a && truthy b && isObjectType a && isObjectType b then
      let* found :=
        match b with
        | VArr bs =>
            (fix some (i : nat) (bs : list value) : completion jsError bool :=
               match bs with
               | [] => Ok false
               | bv :: rest =>
                   let* av := getProp a (Index i) in
                   let* r := partialDeepEqual av bv in
                   if negb r then Ok true else some (S i) rest
               end) 0%nat bs
        | VObj ps =>
            (fix some (ps : list (propKey * value)) : completion jsError bool :=
               match ps with
               | [] => Ok false
               | (k, bv) :: rest =>
                   let* av := getProp a k in
                   let* r := partialDeepEqual av bv in
                   if negb r then Ok true else some rest
               end) ps
        | _ => Ok false
        end in
      Ok (negb found)
    else Ok false.

(** [partialMatch(a, b)]. *)
Definition partialMatch (a b : value) : completion jsError bool :=
  partialDeepEqual (ensureQueryKeyArray a) (ensureQueryKeyArray b).

End KeyMatcher.

Import KeyMatcher.

(** ** Responses and headers *)

Module Http.

Definition lowerAscii (c : ascii) : ascii :=
  let n := nat_of_ascii c in
  if (65 <=? n)%nat && (n <=? 90)%nat then ascii_of_nat (n + 32) else c.

(** Header names are case-insensitive: [Headers] keeps them in lower case. *)
Fixpoint lower (s : string) : string :=
  match s with
  | EmptyString => EmptyString
  | String c rest => String (lowerAscii c) (lower rest)
  end.

(** A [Headers] object, as the sequence of [(name, value)] pairs that
    iterating it yields; the names are in their normalised, lower-case form. *)
Definition Headers : Type := list (string * string).

(** [headers.get(name)]: the name asked for is normalised first; [None] is
    JavaScript's [null]. *)
Fixpoint headers_get (h : Headers) (name : string) : option string :=
  match h with
  | [] => None
  | (n, v) :: rest =>
      if String.eqb n (lower name) then Some v else headers_get rest name
  end.

Record Response : Type := mkResponse {
  status : Z;
  headers : Headers
}.

(** Modelled from the spec: [isRedirectResponse] is imported from
    [../server/responses], which is not part of the sources at hand.  The
    spec says: redirect detection is "status in the conventional 3xx
    redirect range". *)
Definition isRedirectResponse (r : Response) : bool :=
  (300 <=? status r) && (status r <=? 399).

(** Modelled from the spec: the constant [LocationHeader] comes from the
    same missing module; the spec calls it the "Location header". *)
Definition LocationHeader : string := "Location".

End Http.

Import Http.

(** ** The world the route data code acts on *)

(** Everything that can be returned, cached or thrown around a fetcher. *)
Inductive any : Type :=
| Plain (v : value)
| Resp (r : Response)
| Err (e : jsError).

(** The execution context handed to the fetcher: on the server a frozen
    record [{request, env, $type: FETCH_EVENT, fetch}], on the client the
    ambient page event as it is. *)
Inductive RouteDataEvent : Type :=
| FetchEvent
| AmbientPageEvent.

(** What a redirect does to the browser or to the router. *)
Inductive navigation : Type :=
| Navigate (url : string) (replace : bool)
| LocationAssign (url : string).

Record world : Type := mkWorld {
  statusCode : Z;                          (* set by [pageEvent.setStatusCode] *)
  responseHeaders : gmap string string;    (* [pageEvent.responseHeaders] *)
  navigations : list navigation;           (* oldest first *)
  timers : list Response;                  (* pending [setTimeout(() => handleResponse(r), 0)] *)
  fetcherCalls : list (value * RouteDataEvent);  (* calls of user fetchers, oldest first *)
  nextHandle : nat;                        (* identity of the next [refetch] closure *)
  resources : list nat;                    (* the [Set] of refetch handles, in insertion order *)
  refetchCalls : list (nat * value)        (* [refetch(key)] invocations, oldest first *)
}.

(** Stateful computations that may throw: the state survives a throw. *)
Definition Eff (A : Type) : Type := world -> world * completion any A.

Definition ret {A : Type} (x : A) : Eff A := fun w => (w, Ok x).

Definition throw {A : Type} (e : any) : Eff A := fun w => (w, Throw e).

Definition bindE {A B : Type} (c : Eff A) (k : A -> Eff B) : Eff B :=
  fun w =>
    match c w with
    | (w', Ok x) => k x w'
    | (w', Throw e) => (w', Throw e)
    end.

Notation "'let!' x ':=' c 'in' k" := (bindE c (fun x => k))
  (at level 10, x name, c at level 100, k at level 200, only parsing).

(** [try { body } catch (e) { handler e }]. *)
Definition tryCatch {A : Type} (body : Eff A) (handler : any -> Eff A) : Eff A :=
  fun w =>
    match body w with
    | (w', Ok x) => (w', Ok x)
    | (w', Throw e) => handler e w'
    end.

(** Lifting a pure completion: a language error becomes the thrown value. *)
Definition liftC {A : Type} (c : completion jsError A) : Eff A :=
  fun w =>
    match c with
    | Ok x => (w, Ok x)
    | Throw e => (w, Throw (Err e))
    end.

Definition modify (f : world -> world) : Eff unit := fun w => (f w, Ok tt).

Definition withStatusCode (code : Z) (w : world) : world :=
  mkWorld code (responseHeaders w) (navigations w) (timers w)
    (fetcherCalls w) (nextHandle w) (resources w) (refetchCalls w).

Definition withResponseHeaders (m : gmap string string) (w : world) : world :=
  mkWorld (statusCode w) m (navigations w) (timers w)
    (fetcherCalls w) (nextHandle w) (resources w) (refetchCalls w).

Definition withNavigations (l : list navigation) (w : world) : world :=
  mkWorld (statusCode w) (responseHeaders w) l (timers w)
    (fetcherCalls w) (nextHandle w) (resources w) (refetchCalls w).

Definition withTimers (l : list Response) (w : world) : world :=
  mkWorld (statusCode w) (responseHeaders w) (navigations w) l
    (fetcherCalls w) (nextHandle w) (resources w) (refetchCalls w).

Definition withFetcherCalls (l : list (value * RouteDataEvent)) (w : world) : world :=
  mkWorld (statusCode w) (responseHeaders w) (navigations w) (timers w)
    l (nextHandle w) (resources w) (refetchCalls w).

Definition withNextHandle (n : nat) (w : world) : world :=
  mkWorld (statusCode w) (responseHeaders w) (navigations w) (timers w)
    (fetcherCalls w) n (resources w) (refetchCalls w).

Definition withResources (l : list nat) (w : world) : world :=
  mkWorld (statusCode w) (responseHeaders w) (navigations w) (timers w)
    (fetcherCalls w) (nextHandle w) l (refetchCalls w).

Definition withRefetchCalls (l : list (nat * value)) (w : world) : world :=
  mkWorld (statusCode w) (responseHeaders w) (navigations w) (timers w)
    (fetcherCalls w) (nextHandle w) (resources w) l.

(** [pageEvent.setStatusCode(code)]. *)
Definition setStatusCode (code : Z) : Eff unit := modify (withStatusCode code).

(** [pageEvent.responseHeaders.set(name, value)]: the name is normalised and
    an earlier value under it is replaced. *)
Definition responseHeaders_set (name value : string) : Eff unit :=
  modify (fun w => withResponseHeaders (<[lower name := value]> (responseHeaders w)) w).

Definition pushNavigation (n : navigation) : Eff unit :=
  modify (fun w => withNavigations (navigations w ++ [n]) w).

(** [navigate(url, { replace: true })]. *)
Definition navigate (url : string) (replace : bool) : Eff unit :=
  pushNavigation (Navigate url replace).

(** [window.location.href = url]. *)
Definition assignLocation (url : string) : Eff unit :=
  pushNavigation (LocationAssign url).

(** [setTimeout(() => handleResponse(r), 0)]. *)
Definition setTimeout_handleResponse (r : Response) : Eff unit :=
  modify (fun w => withTimers (timers w ++ [r]) w).

Definition recordFetcherCall (key : value) (ev : RouteDataEvent) : Eff unit :=
  modify (fun w => withFetcherCalls (fetcherCalls w ++ [(key, ev)]) w).

(** [headers.forEach(callback)]: the callback receives the value first and
    the name second. *)
Fixpoint headers_forEach (h : Headers) (callback : string -> string -> Eff unit)
  : Eff unit :=
  match h with
  | [] => ret tt
  | (n, v) :: rest => let! _ := callback v n in headers_forEach rest callback
  end.

(** Modelled from the spec: [startTransition(fn)] belongs to the reactive
    library; the spec has the navigation executed inside a scheduled
    transition.  The server build of the library runs [fn] at once, and what
    [fn] throws leaves the call.  The browser build hands [fn] to a microtask
    and returns a promise: the effects of [fn] come a little later, and what
    [fn] throws rejects that promise, which [handleResponse] drops, so the
    call itself completes.  On a client [handleResponse] does nothing after
    this call, so the effects of [fn] are placed here. *)
Definition startTransition (isServer : bool) (fn : Eff unit) : Eff unit :=
  if isServer then fn
  else fun w => (fst (fn w), Ok tt).

(** [url.startsWith(prefix)] on a header value that may be [null]. *)
Definition startsWith (url : option string) (prefix : string) : Eff bool :=
  match url with
  | None => throw (Err (TypeError "Cannot read properties of null (reading 'startsWith')"))
  | Some u => ret (String.prefix prefix u)
  end.

Module RouteData.

(** The user's fetcher, after [await]: it returns a value or throws one. *)
Definition Fetcher : Type := value -> RouteDataEvent -> completion any any.

(** [info] as the resource primitive hands it to the fetch wrapper. *)
Record ResourceFetcherInfo : Type := mkInfo {
  info_value : any;        (* [info.value]: the previous cached value *)
  info_refetching : value  (* [info.refetching] *)
}.

Section Instance.

Variable isServer : bool.
Variable fetcher : Fetcher.

(** The arrow function handed to [startTransition]: it reads the target
    and navigates to it.  Past [url.startsWith("/")] the target is a string. *)
Definition redirectTransition (response : Response) : Eff unit :=
  let url := headers_get (headers response) LocationHeader in
  let! isPath := startsWith url "/" in
  let target := default "" url in
  if (isPath : bool) then
    navigate target true
  else
    if negb isServer then assignLocation target else ret tt.

Definition handleResponse (response : Response) : Eff unit :=
  if isRedirectResponse response then
    let! _ := startTransition isServer (redirectTransition response) in
    if isServer then
      let! _ := setStatusCode (status response) in
      headers_forEach (headers response)
        (fun head value => responseHeaders_set value head)
    else ret tt
  else ret tt.

(** [let event = pageEvent; if (isServer) event = Object.freeze({...})]. *)
Definition eventFor (server : bool) : RouteDataEvent :=
  if server then FetchEvent else AmbientPageEvent.

(** [(fetcher as any).call(event, key, event)], awaited. *)
Definition callFetcher (key : value) (ev : RouteDataEvent) : Eff any :=
  let! _ := recordFetcherCall key ev in
  (fun w => (w, fetcher key ev)).

(** [if (isServer) handleResponse(r); else setTimeout(() => handleResponse(r), 0)]. *)
Definition dispatchResponse (r : Response) : Eff unit :=
  if isServer then handleResponse r else setTimeout_handleResponse r.

(** [info.refetching && info.refetching !== true && !partialMatch(key, info.refetching)]. *)
Definition isNoOpRefetch (key : value) (info : ResourceFetcherInfo) : Eff bool :=
  if truthy (info_refetching info)
     && negb (strictEq (info_refetching info) (VBool true))
  then let! matched := liftC (partialMatch key (info_refetching info)) in
       ret (negb matched)
  else ret false.

Definition resourceFetcher (key : value) (info : ResourceFetcherInfo) : Eff any :=
  tryCatch
    (let! skip := isNoOpRefetch key info in
     if (skip : bool) then ret (info_value info)
     else
       let event := eventFor isServer in
       let! response := callFetcher key event in
       let! _ :=
         match response with
         | Resp r => dispatchResponse r
         | _ => ret tt
         end in
       ret response)
    (fun e =>
       match e with
       | Resp r => let! _ := dispatchResponse r in ret e
       | _ => throw e
       end).

End Instance.

(** [RouteDataSource<S>]: a value (among them [false], [null] and
    [undefined], the last one also standing for an absent [key] option) or a
    nullary function returning one. *)
Inductive RouteDataSource : Type :=
| SourceValue (v : value)
| SourceFn (f : unit -> value).

Record RouteDataOptions : Type := mkOptions {
  opt_key : RouteDataSource;   (* [options.key] *)
  opt_initialValue : any       (* [options.initialValue] *)
}.

(** [options.key || true]: a function is truthy. *)
Definition keyOrTrue (k : RouteDataSource) : RouteDataSource :=
  match k with
  | SourceValue v => if truthy v then SourceValue v else SourceValue (VBool true)
  | SourceFn f => SourceFn f
  end.

(** What a load leaves in the resource. *)
Inductive ResourceState : Type :=
| Unfetched (v : any)   (* no fetch was made; the value is the one held before *)
| Ready (v : any)       (* the fetch wrapper resolved with [v] *)
| Errored (e : any).    (* the fetch wrapper rejected with [e] *)

(** Modelled from the spec: [createResource] belongs to the reactive
    library, not to the sources at hand.  The spec's data model says of the
    source handed to it: "a value, or false/null/undefined to denote do not
    fetch, or a nullary function returning such a value"; otherwise the
    fetch wrapper is called with the key and with [{value, refetching}], and
    its resolution or rejection becomes the resource's value or error. *)
Definition load (source : RouteDataSource)
    (wrapper : value -> ResourceFetcherInfo -> Eff any)
    (refetching : value) (current : any) : Eff ResourceState :=
  let lookup := match source with SourceValue v => v | SourceFn f => f tt end in
  match lookup with
  | VUndefined | VNull | VBool false => ret (Unfetched current)
  | _ =>
      fun w =>
        match wrapper lookup (mkInfo current refetching) w with
        | (w', Ok v) => (w', Ok (Ready v))
        | (w', Throw e) => (w', Ok (Errored e))
        end
  end.

(** A new [refetch] closure: its identity is a fresh number. *)
Definition freshHandle : Eff nat :=
  fun w => (withNextHandle (S (nextHandle w)) w, Ok (nextHandle w)).

(** Modelled from the spec: [createResource(source, fetcher, options)]
    makes the first load (not a refetch) and returns the resource with its
    [refetch] capability. *)
Definition createResource (source : RouteDataSource)
    (wrapper : value -> ResourceFetcherInfo -> Eff any)
    (initialValue : any) : Eff (ResourceState * nat) :=
  let! refetch := freshHandle in
  let! resource := load source wrapper (VBool false) initialValue in
  ret (resource, refetch).

(** [resources.add(refetch)]: a [Set] keeps one copy, in insertion order. *)
Definition resources_add (refetch : nat) : Eff unit :=
  modify (fun w => withResources
                     (if bool_decide (refetch ∈ resources w) then resources w
                      else resources w ++ [refetch]) w).

(** [resources.delete(refetch)]. *)
Definition resources_delete (refetch : nat) : Eff unit :=
  modify (fun w => withResources (filter (fun h => h ≠ refetch) (resources w)) w).

(** [refetch(key)]: the handle is the resource primitive's.  The call is
    recorded, and it does not throw (the fetch wrapper is [async]: its
    failures are rejections, kept in the resource).  What the handle does
    next, the reload of its resource, which re-enters the fetch wrapper, is
    not followed here: the statements about the registry below speak of the
    registry and of the calls of the handles only. *)
Definition callRefetch (refetch : nat) (key : value) : Eff unit :=
  modify (fun w => withRefetchCalls (refetchCalls w ++ [(refetch, key)]) w).

(** [createRouteData(fetcher, options)] returns the resource; the model
    returns the [refetch] handle with it, the identity under which the
    instance sits in [resources]. *)
Definition createRouteData (isServer : bool) (fetcher : Fetcher)
    (options : RouteDataOptions) : Eff (ResourceState * nat) :=
  let! created := createResource (keyOrTrue (opt_key options))
                    (resourceFetcher isServer fetcher)
                    (opt_initialValue options) in
  let! _ := resources_add (snd created) in
  ret created.

(** The callback registered by [onCleanup(() => resources.delete(refetch))],
    run when the owning scope is torn down. *)
Definition cleanup (refetch : nat) : Eff unit := resources_delete refetch.

Fixpoint forEachHandle (handles : list nat) (body : nat -> Eff unit) : Eff unit :=
  match handles with
  | [] => ret tt
  | h :: rest => let! _ := body h in forEachHandle rest body
  end.

(** [refetchRouteData(key)]: [for (let refetch of resources) refetch(key)].
    A call without argument passes [undefined]. *)
Definition refetchRouteData (key : value) : Eff unit :=
  fun w => forEachHandle (resources w) (fun refetch => callRefetch refetch key) w.

(** Pending timers, run one macrotask each: an exception in one of them is
    an uncaught error of that task and reaches nobody. *)
Fixpoint runTimerList (isServer : bool) (pending : list Response) (w : world) : world :=
  match pending with
  | [] => w
  | r :: rest => runTimerList isServer rest (fst (handleResponse isServer r w))
  end.

Definition runTimers (isServer : bool) (w : world) : world :=
  runTimerList isServer (timers w) (withTimers [] w).

(** The state of a fresh page: status 200, nothing else. *)
Definition initialWorld : world := mkWorld 200 ∅ [] [] [] 0%nat [] [].

(** The life of the registry: instances are created, scopes are torn down,
    refetches are requested. *)
Inductive RegistryOp : Type :=
| OpCreate (isServer : bool) (fetcher : Fetcher) (options : RouteDataOptions)
| OpTeardown (refetch : nat)
| OpRefetch (key : value).

Definition stepOp (op : RegistryOp) (w : world) : world :=
  match op with
  | OpCreate isServer fetcher options => fst (createRouteData isServer fetcher options w)
  | OpTeardown refetch => fst (cleanup refetch w)
  | OpRefetch key => fst (refetchRouteData key w)
  end.

Inductive reachable : world -> Prop :=
| reachable_initial : reachable initialWorld
| reachable_step op w : reachable w -> reachable (stepOp op w).

End RouteData.

Import RouteData.

(** ** Notions the statements use *)

Module KeySpec.

(** [Object.keys(b).some(key => !partialDeepEqual(a[key], b[key]))] over an
    explicit list of the entries of [b]. *)
Fixpoint someMismatch (a : operand) (entries : list (propKey * value))
  : completion jsError bool :=
  match entries with
  | [] => Ok false
  | (k, bv) :: rest =>
      let* av := getProp a k in
      let* r := partialDeepEqual av bv in
      if negb r then Ok true else someMismatch a rest
  end.

(** Arrays and records: the structured keys. *)
Definition isStructured (v : value) : bool :=
  match v with VArr _ | VObj _ => true | _ => false end.

(** The operands that are objects: arrays, records and the two prototypes. *)
Definition isObject (a : operand) : bool :=
  match a with
  | Data v => isStructured v
  | Builtin ObjectPrototype | Builtin ArrayPrototype => true
  | Builtin _ => false
  end.

(** The pattern [b] is a sparse sub-structure of the candidate [a]: the two
    are the same primitive, or both are objects and every key present in [b]
    has a matching value in [a], read as [a[key]] reads it (the own property,
    else what [a] inherits).  [ok a b] is a side condition asked of every
    pair of objects that are compared. *)
Inductive subStructureBy (ok : operand -> value -> Prop) : operand -> value -> Prop :=
| sub_same a b :
    strictEqO a b = true -> subStructureBy ok a b
| sub_structured a b :
    isObject a = true -> isStructured b = true -> ok a b ->
    (forall k bv, In (k, bv) (ownEntries b) -> subStructureBy ok (propOf a k) bv) ->
    subStructureBy ok a b.


(** The guard [a.length && !b.length] of the code, read positively: where
    the candidate has a truthy length, so has the pattern. *)
Definition lengthAgrees (a : operand) (b : value) : Prop :=
  truthyO (propOf a (Name "length")) = true ->
  truthyO (propOf b (Name "length")) = true.

Definition sparseMatch : operand -> value -> Prop := subStructureBy lengthAgrees.

(** No [null] anywhere in the value. *)
Fixpoint nullFree (v : value) : bool :=
  match v with
  | VNull => false
  | VArr l => forallb nullFree l
  | VObj ps => forallb (fun kv => nullFree (snd kv)) ps
  | _ => true
  end.

(** No [NaN] anywhere in the value. *)
Fixpoint nanFree (v : value) : bool :=
  match v with
  | VNaN => false
  | VArr l => forallb nanFree l
  | VObj ps => forallb (fun kv => nanFree (snd kv)) ps
  | _ => true
  end.

(** No record of the value, at any depth, has an own property named
    [__proto__] (a name that [JSON.parse] can give to an own property). *)
Fixpoint noProtoKey (v : value) : bool :=
  match v with
  | VArr l => forallb noProtoKey l
  | VObj ps =>
      forallb (fun kv => negb (propKey_eqb (fst kv) (Name "__proto__"))
                         && noProtoKey (snd kv)) ps
  | _ => true
  end.

(** An operand that holds no [null] and is not one of the prototypes. *)
Definition plainOperand (a : operand) : bool :=
  match a with
  | Data v => nullFree v
  | Builtin ObjectPrototype | Builtin ArrayPrototype => false
  | Builtin _ => true
  end.

#[global] Instance propKey_eq_dec : EqDecision propKey.
Proof. solve_decision. Defined.

(** The property names of every record are pairwise distinct, as they are
    in a JavaScript object. *)
Fixpoint distinctKeys (v : value) : bool :=
  match v with
  | VArr l => forallb distinctKeys l
  | VObj ps =>
      bool_decide (NoDup (List.map fst ps))
      && forallb (fun kv => distinctKeys (snd kv)) ps
  | _ => true
  end.

End KeySpec.

Import KeySpec.

Module RouteSpec.

(** The header map after the entries of [h] have been written into [m] one
    after the other, each under its normalised name. *)
Fixpoint copyHeaders (h : Headers) (m : gmap string string) : gmap string string :=
  match h with
  | [] => m
  | (n, v) :: rest => copyHeaders rest (<[lower n := v]> m)
  end.

(** The value of the last entry of [h] whose normalised name is [k]. *)
Fixpoint lastWritten (k : string) (h : Headers) : option string :=
  match h with
  | [] => None
  | (n, v) :: rest =>
      match lastWritten k rest with
      | Some v' => Some v'
      | None => if String.eqb (lower n) k then Some v else None
      end
  end.

(** The refetch test lets the invocation through to the fetcher: it is not
    a refetch with an explicit key, or the key matches. *)
Definition reachesFetcher (key : value) (info : ResourceFetcherInfo) : Prop :=
  truthy (info_refetching info) = false
  \/ info_refetching info = VBool true
  \/ partialMatch key (info_refetching info) = Ok true.

(** The sources that denote "do not fetch". *)
Definition isDoNotFetch (v : value) : bool :=
  match v with
  | VUndefined | VNull | VBool false => true
  | _ => false
  end.

(** A computation leaves a component of the world as it was. *)
Definition preserves {F A : Type} (proj : world -> F) (c : Eff A) : Prop :=
  forall w, proj (fst (c w)) = proj w.

(** The handles in the registry are pairwise distinct and were all handed
    out already. *)
Definition registryInv (w : world) : Prop :=
  NoDup (resources w) /\ forall h, h ∈ resources w -> (h < nextHandle w)%nat.

(** The world of two route-data instances on a client page. *)
Definition twoInstances : world :=
  stepOp (OpCreate false (fun _ _ => Ok (Plain (VStr "posts")))
            (mkOptions (SourceValue (VObj [(Name "id", VNum 1)])) (Plain VUndefined)))
    (stepOp (OpCreate false (fun _ _ => Ok (Plain (VStr "user")))
               (mkOptions (SourceValue VUndefined) (Plain VUndefined)))
       initialWorld).

End RouteSpec.

Import RouteSpec.

(** * Properties *)

(** ** Key values *)

Section ValueInduction.

Variable P : value -> Prop.
Hypothesis Hundefined : P VUndefined.
Hypothesis Hnull : P VNull.
Hypothesis Hbool : forall b, P (VBool b).
Hypothesis Hnum : forall n, P (VNum n).
Hypothesis Hnan : P VNaN.
Hypothesis Hstr : forall s, P (VStr s).
Hypothesis Harr : forall l, Forall P l -> P (VArr l).
Hypothesis Hobj : forall ps, Forall (fun kv => P (snd kv)) ps -> P (VObj ps).

Fixpoint value_nested_ind (v : value) : P v :=
  match v with
  | VUndefined => Hundefined
  | VNull => Hnull
  | VBool b => Hbool b
  | VNum n => Hnum n
  | VNaN => Hnan
  | VStr s => Hstr s
  | VArr l =>
      Harr l ((fix go (l : list value) : Forall P l :=
                 match l with
                 | [] => @List.Forall_nil _ P
                 | x :: rest => @List.Forall_cons _ P x rest (value_nested_ind x) (go rest)
                 end) l)
  | VObj ps =>
      Hobj ps ((fix go (ps : list (propKey * value)) : Forall (fun kv => P (snd kv)) ps :=
                  match ps with
                  | [] => @List.Forall_nil _ _
                  | kv :: rest =>
                      @List.Forall_cons _ (fun kv => P (snd kv)) kv rest
                        (value_nested_ind (snd kv)) (go rest)
                  end) ps)
  end.

End ValueInduction.

Section KeyMatcherFacts.

Lemma jstype_eqb_refl t : jstype_eqb t t = true.
Proof. destruct t; reflexivity. Qed.

Lemma jstype_eqb_eq s t : jstype_eqb s t = true <-> s = t.
Proof. destruct s, t; simpl; split; intros H; try reflexivity; discriminate H. Qed.

Lemma propKey_eqb_eq j k : propKey_eqb j k = true <-> j = k.
Proof.
  destruct j as [i|s], k as [i'|s']; simpl; split; intros H;
    try discriminate H.
  - apply Nat.eqb_eq in H. congruence.
  - injection H as ->. apply Nat.eqb_refl.
  - apply String.eqb_eq in H. congruence.
  - injection H as ->. apply String.eqb_refl.
Qed.

Lemma array_loop_eq (a : operand) :
  forall bs i,
    (fix some (i : nat) (bs : list value) : completion jsError bool :=
       match bs with
       | [] => Ok false
       | bv :: rest =>
           let* av := getProp a (Index i) in
           let* r := partialDeepEqual av bv in
           if negb r then Ok true else some (S i) rest
       end) i bs
    = someMismatch a (indexedFrom i bs).
Proof.
  induction bs as [|bv rest IH]; intros i; simpl; [reflexivity|].
  destruct (getProp a (Index i)) as [av|e]; simpl; [|reflexivity].
  destruct (partialDeepEqual av bv) as [[|]|e]; simpl; auto.
Qed.

Lemma record_loop_eq (a : operand) :
  forall ps,
    (fix some (ps : list (propKey * value)) : completion jsError bool :=
       match ps with
       | [] => Ok false
       | (k, bv) :: rest =>
           let* av := getProp a k in
           let* r := partialDeepEqual av bv in
           if negb r then Ok true else some rest
       end) ps
    = someMismatch a ps.
Proof.
  induction ps as [|[k bv] rest IH]; simpl; [reflexivity|].
  destruct (getProp a k) as [av|e]; simpl; [|reflexivity].
  destruct (partialDeepEqual av bv) as [[|]|e]; simpl; auto.
Qed.

(** The body of [partialDeepEqual], with its loop over [Object.keys(b)]
    written once. *)
Lemma partialDeepEqual_unfold (a : operand) (b : value) :
  partialDeepEqual a b =
    if strictEqO a b then Ok true
    else if negb (jstype_eqb (typeofO a) (typeof b)) then Ok false
    else
      let* guard := lengthGuard a b in
      if guard then Ok false
      else if truthyO a && truthy b && isObjectType a && isObjectType b then
        let* found := someMismatch a (ownEntries b) in Ok (negb found)
      else Ok false.
Proof.
  destruct b; simpl;
    try (destruct (strictEqO a _); [reflexivity|];
         destruct (negb (jstype_eqb (typeofO a) _)); [reflexivity|];
         destruct (lengthGuard a _) as [[|]|e]; simpl; try reflexivity;
         destruct (truthyO a); simpl; try reflexivity;
         destruct (isObjectType a); simpl; reflexivity).
  - destruct (strictEqO a (VArr elems)); [reflexivity|].
    destruct (negb _); [reflexivity|].
    destruct (lengthGuard a (VArr elems)) as [[|]|e]; simpl; try reflexivity.
    destruct (truthyO a && true && isObjectType a && isObjectType (VArr elems));
      [|reflexivity].
    now rewrite array_loop_eq.
  - destruct (strictEqO a (VObj props)); [reflexivity|].
    destruct (negb _); [reflexivity|].
    destruct (lengthGuard a (VObj props)) as [[|]|e]; simpl; try reflexivity.
    destruct (truthyO a && true && isObjectType a && isObjectType (VObj props));
      [|reflexivity].
    now rewrite record_loop_eq.
Qed.

Lemma object_not_strictEq (a : operand) b : isObject a = true -> strictEqO a b = false.
Proof.
  destruct a as [v|bi]; simpl; [|reflexivity].
  destruct v; simpl; intros H; try discriminate H; reflexivity.
Qed.

Lemma object_getProp (a : operand) k : isObject a = true -> getProp a k = Ok (propOf a k).
Proof.
  destruct a as [v|bi]; simpl; [|reflexivity].
  destruct v; simpl; intros H; try discriminate H; reflexivity.
Qed.

Lemma object_truthy (a : operand) :
  isObject a = true -> truthyO a = true /\ isObjectType a = true.
Proof.
  destruct a as [v|[| | |]]; simpl; intros H; try discriminate H;
    try (split; reflexivity).
  destruct v; try discriminate H; split; reflexivity.
Qed.

Lemma truthy_object (a : operand) :
  truthyO a = true -> isObjectType a = true -> isObject a = true.
Proof.
  destruct a as [v|[| | |]]; simpl; intros H1 H2; try discriminate; try reflexivity.
  destruct v; simpl in *; try discriminate; reflexivity.
Qed.

Lemma structured_truthy b :
  isStructured b = true -> truthy b = true /\ isObjectType b = true.
Proof. intros H. apply (object_truthy (Data b)). exact H. Qed.

Lemma lengthGuard_structured (a : operand) b :
  isObject a = true -> isStructured b = true ->
  lengthGuard a b =
    Ok (truthyO (propOf a (Name "length")) && negb (truthyO (propOf b (Name "length")))).
Proof.
  intros Ha Hb. unfold lengthGuard.
  rewrite (object_getProp a _ Ha), (object_getProp (Data b) _ Hb). simpl.
  destruct (truthyO (propOf a (Name "length"))); reflexivity.
Qed.

Lemma lengthGuard_agrees (a : operand) b :
  isObject a = true -> isStructured b = true ->
  (lengthGuard a b = Ok false <-> lengthAgrees a b).
Proof.
  intros Ha Hb. rewrite lengthGuard_structured by assumption. unfold lengthAgrees.
  destruct (truthyO (propOf a (Name "length"))),
           (truthyO (propOf b (Name "length"))); simpl; split; intros H;
    try reflexivity; try discriminate H; try (intros; congruence).
Qed.

(** The comparison of two objects comes down to the guard on the lengths
    and to the loop over the entries of the pattern. *)
Lemma partialDeepEqual_structured (a : operand) b :
  isObject a = true -> isStructured b = true ->
  partialDeepEqual a b =
    if truthyO (propOf a (Name "length")) && negb (truthyO (propOf b (Name "length")))
    then Ok false
    else let* found := someMismatch a (ownEntries b) in Ok (negb found).
Proof.
  intros Ha Hb. rewrite partialDeepEqual_unfold.
  rewrite (object_not_strictEq a b Ha).
  destruct (object_truthy a Ha) as [Hta Hoa].
  destruct (structured_truthy b Hb) as [Htb Hob].
  replace (jstype_eqb (typeofO a) (typeof b)) with true.
  2:{ symmetry. unfold isObjectType in Hoa, Hob.
      apply jstype_eqb_eq in Hoa, Hob. simpl in Hob. rewrite Hoa, Hob. reflexivity. }
  simpl. rewrite lengthGuard_structured by assumption. simpl.
  rewrite Hta, Htb, Hoa, Hob. reflexivity.
Qed.

Lemma someMismatch_none (a : operand) entries :
  isObject a = true ->
  (forall k bv, In (k, bv) entries -> partialDeepEqual (propOf a k) bv = Ok true) ->
  someMismatch a entries = Ok false.
Proof.
  intros Ha. induction entries as [|[k bv] rest IH]; intros Hall; simpl;
    [reflexivity|].
  rewrite (object_getProp a k Ha). simpl.
  rewrite (Hall k bv) by (left; reflexivity). simpl.
  apply IH. intros k' bv' Hin. apply Hall. right. exact Hin.
Qed.


(** The first entry whose comparison returns [false] settles the loop,
    provided no entry before it throws. *)
Lemma someMismatch_found (a : operand) before k bv after :
  isObject a = true ->
  (forall k' bv', In (k', bv') before ->
     exists r, partialDeepEqual (propOf a k') bv' = Ok r) ->
  partialDeepEqual (propOf a k) bv = Ok false ->
  someMismatch a (before ++ (k, bv) :: after) = Ok true.
Proof.
  intros Ha. induction before as [|[k0 bv0] rest IH]; intros Hbefore Hk; simpl.
  - rewrite (object_getProp a k Ha). simpl. rewrite Hk. reflexivity.
  - rewrite (object_getProp a k0 Ha). simpl.
    destruct (Hbefore k0 bv0) as [r Hr]; [left; reflexivity|].
    rewrite Hr. simpl. destruct r; simpl; [|reflexivity].
    apply IH; [|exact Hk].
    intros k' bv' Hin. apply Hbefore. right. exact Hin.
Qed.

Lemma someMismatch_total (a : operand) entries :
  isObject a = true ->
  (forall k bv, In (k, bv) entries ->
     exists r, partialDeepEqual (propOf a k) bv = Ok r) ->
  exists r, someMismatch a entries = Ok r.
Proof.
  intros Ha. induction entries as [|[k bv] rest IH]; intros Hall; simpl; [eauto|].
  rewrite (object_getProp a k Ha). simpl.
  destruct (Hall k bv) as [r Hr]; [left; reflexivity|].
  rewrite Hr. simpl. destruct r; simpl; [|eauto].
  apply IH. intros k' bv' Hin. apply Hall. right. exact Hin.
Qed.

Lemma indexedFrom_In l :
  forall i k v, In (k, v) (indexedFrom i l) ->
    In v l /\ exists j, k = Index (i + j) /\ (j < List.length l)%nat
                        /\ nth j l VUndefined = v.
Proof.
  induction l as [|x rest IH]; simpl; intros i k v Hin; [contradiction|].
  destruct Hin as [Heq|Hin].
  - injection Heq as <- <-. split; [left; reflexivity|].
    exists 0%nat. rewrite Nat.add_0_r. repeat split. lia.
  - destruct (IH _ _ _ Hin) as [Hv [j [Hk [Hlt Hn]]]]. split; [right; exact Hv|].
    exists (S j). repeat split; [rewrite Hk; f_equal; lia | lia | exact Hn].
Qed.

Lemma ownEntries_values (P : value -> Prop) b :
  match b with
  | VArr l => Forall P l
  | VObj ps => Forall (fun kv => P (snd kv)) ps
  | _ => True
  end ->
  forall k bv, In (k, bv) (ownEntries b) -> P bv.
Proof.
  destruct b; simpl; intros H k bv Hin; try contradiction.
  - apply indexedFrom_In in Hin as [Hin _].
    rewrite List.Forall_forall in H. apply H. exact Hin.
  - rewrite List.Forall_forall in H. apply (H (k, bv)). exact Hin.
Qed.

(** Soundness: a sparse sub-structure is accepted. *)
Lemma sparseMatch_sound (a : operand) b :
  sparseMatch a b -> partialDeepEqual a b = Ok true.
Proof.
  intros H. induction H as [a b Heq | a b Ha Hb Hlen _ IH].
  - rewrite partialDeepEqual_unfold, Heq. reflexivity.
  - rewrite partialDeepEqual_structured by assumption.
    apply lengthGuard_agrees in Hlen; try assumption.
    rewrite lengthGuard_structured in Hlen by assumption.
    destruct (truthyO (propOf a (Name "length"))
              && negb (truthyO (propOf b (Name "length"))));
      [discriminate Hlen|].
    rewrite (someMismatch_none a (ownEntries b) Ha IH). reflexivity.
Qed.


(** *** Keys without [null] and without an own [__proto__] *)

Lemma nullFree_lookupOwn k ps v :
  forallb (fun kv => nullFree (snd kv)) ps = true ->
  lookupOwn k ps = Some v -> nullFree v = true.
Proof.
  induction ps as [|[k' v'] rest IH]; simpl; intros H Hl; [discriminate Hl|].
  apply andb_true_iff in H as [Hv Hrest].
  destruct (propKey_eqb k k'); [injection Hl as <-; exact Hv | auto].
Qed.

Lemma nullFree_nth l :
  forallb nullFree l = true -> forall i, nullFree (nth i l VUndefined) = true.
Proof.
  induction l as [|x rest IH]; simpl; intros H i.
  - destruct i; reflexivity.
  - apply andb_true_iff in H as [Hx Hrest]. destruct i; auto.
Qed.

Lemma plain_objectPrototypeProp proto k :
  k <> Name "__proto__" -> plainOperand (objectPrototypeProp proto k) = true.
Proof.
  intros Hk. unfold objectPrototypeProp. destruct k as [i|s]; [reflexivity|].
  destruct (String.eqb s "__proto__") eqn:E.
  - apply String.eqb_eq in E. subst s. contradiction.
  - destruct (methodLength objectPrototypeMethods s); reflexivity.
Qed.

Lemma plain_arrayPrototypeProp proto k :
  k <> Name "__proto__" -> plainOperand (arrayPrototypeProp proto k) = true.
Proof.
  intros Hk. unfold arrayPrototypeProp. destruct k as [i|s]; [reflexivity|].
  destruct (methodLength arrayPrototypeMethods s); [reflexivity|].
  apply plain_objectPrototypeProp. exact Hk.
Qed.

(** Reading a property other than [__proto__] of a plain operand gives a
    plain operand: neither [null] nor a prototype comes out. *)
Lemma plain_propOf (a : operand) k :
  plainOperand a = true -> k <> Name "__proto__" ->
  plainOperand (propOf a k) = true.
Proof.
  intros Ha Hk. unfold propOf.
  destruct a as [v|[| |m|m]]; simpl in Ha; try discriminate Ha.
  - destruct v; try reflexivity.
    + destruct k as [i|n]; [destruct (String.get i s); reflexivity|].
      destruct (String.eqb n "length"); reflexivity.
    + destruct k as [i|n]; [apply nullFree_nth; exact Ha|].
      destruct (String.eqb n "length"); [reflexivity|].
      apply plain_arrayPrototypeProp. exact Hk.
    + destruct (lookupOwn k props) as [v|] eqn:E.
      * apply (nullFree_lookupOwn k props v Ha E).
      * apply plain_objectPrototypeProp. exact Hk.
  - destruct k as [i|n]; [reflexivity|].
    destruct (String.eqb n "length"); reflexivity.
  - destruct k as [i|n]; [reflexivity|].
    destruct (String.eqb n "length"); reflexivity.
Qed.

Lemma plain_entries b :
  nullFree b = true -> noProtoKey b = true ->
  forall k bv, In (k, bv) (ownEntries b) ->
    k <> Name "__proto__" /\ nullFree bv = true /\ noProtoKey bv = true.
Proof.
  intros Hn Hp k bv Hin. destruct b; simpl in *; try contradiction.
  - destruct (indexedFrom_In _ _ _ _ Hin) as [Hbv [j [-> _]]].
    split; [discriminate|]. split.
    + exact (proj1 (forallb_forall _ _) Hn bv Hbv).
    + exact (proj1 (forallb_forall _ _) Hp bv Hbv).
  - pose proof (proj1 (forallb_forall _ _) Hn (k, bv) Hin) as H1.
    pose proof (proj1 (forallb_forall _ _) Hp (k, bv) Hin) as H2.
    simpl in H1, H2. apply andb_true_iff in H2 as [H2 H3].
    split; [|split; assumption].
    intros ->. simpl in H2. discriminate H2.
Qed.

Lemma lengthGuard_total (a : operand) b :
  plainOperand a = true -> nullFree b = true ->
  jstype_eqb (typeofO a) (typeof b) = true -> strictEqO a b = false ->
  exists g, lengthGuard a b = Ok g.
Proof.
  intros Ha Hb Ht Hs. unfold lengthGuard.
  destruct a as [v|[| |m|m]]; simpl in Ha; try discriminate Ha.
  - destruct v; simpl in *; try discriminate;
      destruct b; simpl in *; try discriminate;
      repeat match goal with
             | |- context [if ?c then _ else _] =>
                 lazymatch c with
                 | true => fail
                 | false => fail
                 | _ => destruct c eqn:?; simpl
                 end
             end; eauto.
  - destruct b; simpl in Ht; discriminate Ht.
  - destruct b; simpl in Ht; discriminate Ht.
Qed.

(** On a plain candidate and a pattern without [null] and without an own
    [__proto__] the comparison always returns. *)
Lemma partialDeepEqual_total b :
  forall a : operand,
    plainOperand a = true -> nullFree b = true -> noProtoKey b = true ->
    exists r, partialDeepEqual a b = Ok r.
Proof.
  induction b as [| | | | | |l IH|ps IH] using value_nested_ind; intros a Ha Hb Hp;
    rewrite partialDeepEqual_unfold;
    destruct (strictEqO a _) eqn:Heq; try (eexists; reflexivity);
    destruct (jstype_eqb (typeofO a) _) eqn:Hty; simpl;
      try (eexists; reflexivity);
    (destruct (lengthGuard_total a _ Ha Hb Hty Heq) as [g Hg]; rewrite Hg; simpl;
     destruct g; [eexists; reflexivity|]);
    destruct (truthyO a && _ && isObjectType a && _) eqn:Hc;
      try (eexists; reflexivity).
  - apply andb_true_iff in Hc as [Hc _]. apply andb_true_iff in Hc as [Hc Hoa].
    apply andb_true_iff in Hc as [Hta _].
    pose proof (truthy_object a Hta Hoa) as Hsa.
    destruct (someMismatch_total a (ownEntries (VArr l)) Hsa) as [r Hr].
    + intros k bv Hin.
      destruct (plain_entries (VArr l) Hb Hp k bv Hin) as (Hk & Hn & Hq).
      apply (ownEntries_values
               (fun bv => forall a : operand, plainOperand a = true ->
                            nullFree bv = true -> noProtoKey bv = true ->
                            exists r, partialDeepEqual a bv = Ok r)
               (VArr l) IH k bv Hin); try assumption.
      apply plain_propOf; assumption.
    + simpl in Hr. rewrite Hr. simpl. eauto.
  - apply andb_true_iff in Hc as [Hc _]. apply andb_true_iff in Hc as [Hc Hoa].
    apply andb_true_iff in Hc as [Hta _].
    pose proof (truthy_object a Hta Hoa) as Hsa.
    destruct (someMismatch_total a (ownEntries (VObj ps)) Hsa) as [r Hr].
    + intros k bv Hin.
      destruct (plain_entries (VObj ps) Hb Hp k bv Hin) as (Hk & Hn & Hq).
      apply (ownEntries_values
               (fun bv => forall a : operand, plainOperand a = true ->
                            nullFree bv = true -> noProtoKey bv = true ->
                            exists r, partialDeepEqual a bv = Ok r)
               (VObj ps) IH k bv Hin); try assumption.
      apply plain_propOf; assumption.
    + simpl in Hr. rewrite Hr. simpl. eauto.
Qed.

Lemma nullFree_ensureQueryKeyArray v :
  nullFree v = true -> nullFree (ensureQueryKeyArray v) = true.
Proof.
  unfold ensureQueryKeyArray. destruct v; simpl; intros H; try reflexivity;
    try discriminate H; try exact H.
  rewrite H. reflexivity.
Qed.

Lemma noProtoKey_ensureQueryKeyArray v :
  noProtoKey v = true -> noProtoKey (ensureQueryKeyArray v) = true.
Proof.
  unfold ensureQueryKeyArray. destruct v; simpl; intros H; try reflexivity;
    try exact H.
  rewrite H. reflexivity.
Qed.

(** *** A value compared with itself *)

(** Two values that are neither arrays nor records compare by [===]. *)
Lemma partialDeepEqual_primitives a b :
  isStructured a = false -> isStructured b = false ->
  partialDeepEqual a b = Ok (strictEq a b).
Proof.
  intros Ha Hb. rewrite partialDeepEqual_unfold. simpl.
  destruct (strictEq a b) eqn:Heq; [reflexivity|].
  destruct a; try discriminate Ha; destruct b; try discriminate Hb;
    simpl in *; try reflexivity; try discriminate Heq;
    unfold lengthGuard, isObjectType; simpl; rewrite ?andb_false_r;
    repeat match goal with
           | |- context [if negb ?c then _ else _] => destruct c; simpl
           end; reflexivity.
Qed.

Lemma strictEq_refl_primitive v :
  isStructured v = false -> v <> VNaN -> strictEq v v = true.
Proof.
  destruct v; simpl; intros H Hnan; try discriminate H; try reflexivity.
  - destruct b; reflexivity.
  - apply Z.eqb_refl.
  - contradiction.
  - apply String.eqb_refl.
Qed.

Lemma lookupOwn_In ps :
  NoDup (List.map fst ps) ->
  forall k v, In (k, v) ps -> lookupOwn k ps = Some v.
Proof.
  induction ps as [|[k' v'] rest IH]; simpl; intros Hnd k v Hin; [contradiction|].
  apply NoDup_cons in Hnd as [Hnotin Hnd].
  destruct Hin as [Heq|Hin].
  - injection Heq as -> ->.
    rewrite (proj2 (propKey_eqb_eq k k) eq_refl). reflexivity.
  - destruct (propKey_eqb k k') eqn:E.
    + apply propKey_eqb_eq in E. subst k'. exfalso. apply Hnotin.
      apply list_elem_of_In. apply (List.in_map fst) in Hin. exact Hin.
    + apply IH; assumption.
Qed.

(** An own entry of an array or of a record is what reading its key gives:
    own properties come before inherited ones. *)
Lemma own_entry x k bv :
  distinctKeys x = true -> In (k, bv) (ownEntries x) ->
  propOf x k = Data bv /\ distinctKeys bv = true.
Proof.
  intros Hd Hin. destruct x; simpl in *; try contradiction.
  - destruct (indexedFrom_In _ _ _ _ Hin) as [Hbv [j [-> [_ Hn]]]]. simpl.
    rewrite Hn. split; [reflexivity|].
    exact (proj1 (forallb_forall _ _) Hd bv Hbv).
  - apply andb_true_iff in Hd as [Hnd Hall]. apply bool_decide_eq_true in Hnd.
    rewrite (lookupOwn_In props Hnd k bv Hin). split; [reflexivity|].
    exact (proj1 (forallb_forall _ _) Hall (k, bv) Hin).
Qed.

Lemma nanFree_entries b :
  nanFree b = true ->
  forall k bv, In (k, bv) (ownEntries b) -> nanFree bv = true.
Proof.
  intros Hb k bv Hin. destruct b; simpl in *; try contradiction.
  - destruct (indexedFrom_In _ _ _ _ Hin) as [Hbv _].
    exact (proj1 (forallb_forall _ _) Hb bv Hbv).
  - exact (proj1 (forallb_forall _ _) Hb (k, bv) Hin).
Qed.

(** One object compared with itself: [NaN] apart, the structural path says
    [true], as the identity test [a === b] does. *)
Lemma sparseMatch_same_object x :
  distinctKeys x = true -> nanFree x = true -> sparseMatch x x.
Proof.
  induction x as [| | | | | |l IH|ps IH] using value_nested_ind; intros Hd Hn;
    try (apply sub_same; apply strictEq_refl_primitive;
         [reflexivity | discriminate]);
    try discriminate Hn.
  - apply sub_structured; try reflexivity; [intros H; exact H|].
    intros k bv Hin.
    destruct (own_entry (VArr l) k bv Hd Hin) as [-> Hdb].
    apply (ownEntries_values
             (fun bv => distinctKeys bv = true -> nanFree bv = true ->
                        sparseMatch bv bv) (VArr l) IH k bv Hin Hdb).
    apply (nanFree_entries (VArr l) Hn k bv Hin).
  - apply sub_structured; try reflexivity; [intros H; exact H|].
    intros k bv Hin.
    destruct (own_entry (VObj ps) k bv Hd Hin) as [-> Hdb].
    apply (ownEntries_values
             (fun bv => distinctKeys bv = true -> nanFree bv = true ->
                        sparseMatch bv bv) (VObj ps) IH k bv Hin Hdb).
    apply (nanFree_entries (VObj ps) Hn k bv Hin).
Qed.

Lemma partialDeepEqual_same_object x :
  distinctKeys x = true -> nanFree x = true -> partialDeepEqual x x = Ok true.
Proof. intros Hd Hn. apply sparseMatch_sound, sparseMatch_same_object; assumption. Qed.

(** A value compared with itself never throws, [null] and [NaN] entries
    included. *)
Lemma partialDeepEqual_self_returns x :
  distinctKeys x = true -> exists r, partialDeepEqual x x = Ok r.
Proof.
  induction x as [| | | | | |l IH|ps IH] using value_nested_ind; intros Hd;
    try (rewrite partialDeepEqual_primitives by reflexivity; eauto).
  - rewrite partialDeepEqual_structured by reflexivity. rewrite andb_negb_r.
    destruct (someMismatch_total (VArr l) (ownEntries (VArr l)) eq_refl) as [r Hr].
    + intros k bv Hin.
      destruct (own_entry (VArr l) k bv Hd Hin) as [-> Hdb].
      apply (ownEntries_values
               (fun bv => distinctKeys bv = true ->
                          exists r, partialDeepEqual bv bv = Ok r)
               (VArr l) IH k bv Hin Hdb).
    + rewrite Hr. simpl. eauto.
  - rewrite partialDeepEqual_structured by reflexivity. rewrite andb_negb_r.
    destruct (someMismatch_total (VObj ps) (ownEntries (VObj ps)) eq_refl) as [r Hr].
    + intros k bv Hin.
      destruct (own_entry (VObj ps) k bv Hd Hin) as [-> Hdb].
      apply (ownEntries_values
               (fun bv => distinctKeys bv = true ->
                          exists r, partialDeepEqual bv bv = Ok r)
               (VObj ps) IH k bv Hin Hdb).
    + rewrite Hr. simpl. eauto.
Qed.

(** A key of the pattern whose value does not match makes the whole
    pattern fail to be a sparse sub-structure. *)
Lemma mismatching_key_not_sparse (a : operand) b k bv :
  isObject a = true ->
  In (k, bv) (ownEntries b) -> ~ sparseMatch (propOf a k) bv -> ~ sparseMatch a b.
Proof.
  intros Ha Hin Hno H. inversion H as [? ? Heq | ? ? _ _ _ Hall]; subst.
  - rewrite (object_not_strictEq a b Ha) in Heq. discriminate Heq.
  - apply Hno. apply Hall. exact Hin.
Qed.

(** Reading through the prototype chain.  [{}] inherits [toString], so the
    pattern [{toString: undefined}] does not match it.  An own [__proto__] key
    of the pattern is compared with the prototype of the candidate; one level
    deeper the prototype of [Object.prototype], [null], is reached and
    [a.length] throws.  [NaN] matches nothing, a copy of itself included. *)
Example partialMatch_prototype_chain :
  partialMatch (VObj []) (VObj [(Name "toString", VUndefined)]) = Ok false
  /\ partialMatch (VObj []) (VObj [(Name "__proto__", VObj [])]) = Ok true
  /\ partialMatch (VArr [VArr []]) (VArr [VObj [(Name "__proto__", VArr [])]])
     = Ok true
  /\ partialMatch (VObj [])
       (VObj [(Name "__proto__", VObj [(Name "__proto__", VObj [])])])
     = Throw (TypeError "Cannot read properties of null")
  /\ partialMatch VNaN VNaN = Ok false
  /\ partialMatch (VArr [VNaN]) (VArr [VNaN]) = Ok false.
Proof. repeat split. Qed.

End KeyMatcherFacts.

(** ** The key matcher *)

Section KeyMatcherClaims.




(** C7: [partialMatch(x, [])] returns [false] for every [x] whose
    normalised form is not the empty array, and [partialMatch([], [])]
    returns [true]. *)
Theorem partialMatch_empty_refresh_key :
  (forall x, ensureQueryKeyArray x <> VArr [] ->
     partialMatch x (VArr []) = Ok false)
  /\ partialMatch (VArr []) (VArr []) = Ok true.
Proof.
  split; [|reflexivity].
  intros x Hne. unfold partialMatch.
  assert (Hlen : exists y rest, ensureQueryKeyArray x = VArr (y :: rest)).
  { unfold ensureQueryKeyArray in *. destruct x; simpl in *; eauto.
    destruct elems as [|y rest]; [contradiction | eauto]. }
  destruct Hlen as [y [rest ->]].
  rewrite partialDeepEqual_structured by reflexivity. reflexivity.
Qed.

(** The empty refresh key against a two-element key and against a record. *)
Lemma partialMatch_empty_refresh_key_witness :
  partialMatch (VArr [VStr "posts"; VNum 7]) (VArr []) = Ok false
  /\ partialMatch (VObj []) (VArr []) = Ok false.
Proof.
  split; apply (proj1 partialMatch_empty_refresh_key); simpl; discriminate.
Defined.

(** C9 fails on the code: with a [null] entry in the candidate facing a
    record in the refresh key, [a.length] is read on [null] before the
    guard [a && b] is reached, and [partialMatch([null], [{}])] throws. *)
Theorem partialMatch_null_entry_throws :
  partialMatch (VArr [VNull]) (VArr [VObj []])
  = Throw (TypeError "Cannot read properties of null").
Proof. reflexivity. Qed.

End KeyMatcherClaims.

(** ** Framing: what the fetch wrapper leaves alone *)

Section Framing.

Context {F : Type} (proj : world -> F).

Lemma preserves_ret {A} (x : A) : preserves proj (ret x).
Proof. intros w. reflexivity. Qed.

Lemma preserves_throw {A} (e : any) : preserves proj (@throw A e).
Proof. intros w. reflexivity. Qed.

Lemma preserves_liftC {A} (c : completion jsError A) : preserves proj (liftC c).
Proof. intros w. destruct c; reflexivity. Qed.

Lemma preserves_modify (f : world -> world) :
  (forall w, proj (f w) = proj w) -> preserves proj (modify f).
Proof. intros H w. apply H. Qed.

Lemma preserves_bindE {A B} (c : Eff A) (k : A -> Eff B) :
  preserves proj c -> (forall x, preserves proj (k x)) -> preserves proj (bindE c k).
Proof.
  intros Hc Hk w. unfold bindE. specialize (Hc w).
  destruct (c w) as [w' [x|e]]; simpl in *; [|exact Hc].
  rewrite (Hk x w'). exact Hc.
Qed.

Lemma preserves_tryCatch {A} (body : Eff A) (handler : any -> Eff A) :
  preserves proj body -> (forall e, preserves proj (handler e)) ->
  preserves proj (tryCatch body handler).
Proof.
  intros Hb Hh w. unfold tryCatch. specialize (Hb w).
  destruct (body w) as [w' [x|e]]; simpl in *; [exact Hb|].
  rewrite (Hh e w'). exact Hb.
Qed.

(** The components the redirect handler and the wrapper never write. *)
Hypothesis frame_status : forall c w, proj (withStatusCode c w) = proj w.
Hypothesis frame_headers : forall m w, proj (withResponseHeaders m w) = proj w.
Hypothesis frame_navigations : forall l w, proj (withNavigations l w) = proj w.
Hypothesis frame_timers : forall l w, proj (withTimers l w) = proj w.

Lemma preserves_headers_forEach h :
  preserves proj (headers_forEach h (fun head value => responseHeaders_set value head)).
Proof.
  induction h as [|[n v] rest IH]; simpl.
  - apply preserves_ret.
  - apply preserves_bindE; [|intros _; exact IH].
    apply preserves_modify. intros w. apply frame_headers.
Qed.

Lemma preserves_redirectTransition isServer r :
  preserves proj (redirectTransition isServer r).
Proof.
  unfold redirectTransition. apply preserves_bindE.
  - unfold startsWith. destruct (headers_get _ _);
      [apply preserves_ret | apply preserves_throw].
  - intros [|].
    + apply preserves_modify. intros w. apply frame_navigations.
    + destruct (negb isServer); [|apply preserves_ret].
      apply preserves_modify. intros w. apply frame_navigations.
Qed.

Lemma preserves_startTransition isServer fn :
  preserves proj fn -> preserves proj (startTransition isServer fn).
Proof.
  intros H. unfold startTransition. destruct isServer; [exact H|].
  intros w. simpl. apply H.
Qed.

Lemma preserves_handleResponse isServer r :
  preserves proj (handleResponse isServer r).
Proof.
  unfold handleResponse. destruct (isRedirectResponse r); [|apply preserves_ret].
  apply preserves_bindE.
  - apply preserves_startTransition, preserves_redirectTransition.
  - intros _. destruct isServer; [|apply preserves_ret].
    apply preserves_bindE.
    + apply preserves_modify. intros w. apply frame_status.
    + intros _. apply preserves_headers_forEach.
Qed.

Lemma preserves_dispatchResponse isServer r :
  preserves proj (dispatchResponse isServer r).
Proof.
  unfold dispatchResponse. destruct isServer.
  - apply preserves_handleResponse.
  - apply preserves_modify. intros w. apply frame_timers.
Qed.

Lemma preserves_isNoOpRefetch key info : preserves proj (isNoOpRefetch key info).
Proof.
  unfold isNoOpRefetch. destruct (_ && _); [|apply preserves_ret].
  apply preserves_bindE; [apply preserves_liftC | intros x; apply preserves_ret].
Qed.

(** With no write to the fetcher log either, the whole wrapper and a load
    preserve the component. *)
Hypothesis frame_fetcherCalls : forall l w, proj (withFetcherCalls l w) = proj w.

Lemma preserves_resourceFetcher isServer fetcher key info :
  preserves proj (resourceFetcher isServer fetcher key info).
Proof.
  unfold resourceFetcher. apply preserves_tryCatch.
  - apply preserves_bindE; [apply preserves_isNoOpRefetch|].
    intros [|]; [apply preserves_ret|].
    apply preserves_bindE.
    + unfold callFetcher. apply preserves_bindE.
      * apply preserves_modify. intros w. apply frame_fetcherCalls.
      * intros _ w. reflexivity.
    + intros response. apply preserves_bindE; [|intros _; apply preserves_ret].
      destruct response; try apply preserves_ret.
      apply preserves_dispatchResponse.
  - intros e. destruct e; try apply preserves_throw.
    apply preserves_bindE; [apply preserves_dispatchResponse|].
    intros _. apply preserves_ret.
Qed.

Lemma preserves_load isServer fetcher source refetching current :
  preserves proj (load source (resourceFetcher isServer fetcher) refetching current).
Proof.
  unfold load. intros w.
  set (lookup := match source with SourceValue v => v | SourceFn f => f tt end).
  pose proof (preserves_resourceFetcher isServer fetcher lookup
                (mkInfo current refetching) w) as H.
  destruct lookup as [| |[|]| | | | |]; try reflexivity;
    destruct (resourceFetcher _ _ _ _ w) as [w' [x|e]]; exact H.
Qed.

End Framing.

(** ** The redirect handler *)

Section RedirectFacts.

Lemma world_eta w :
  mkWorld (statusCode w) (responseHeaders w) (navigations w) (timers w)
    (fetcherCalls w) (nextHandle w) (resources w) (refetchCalls w) = w.
Proof. destruct w; reflexivity. Qed.

Lemma handleResponse_not_redirect isServer r w :
  isRedirectResponse r = false -> handleResponse isServer r w = (w, Ok tt).
Proof. intros H. unfold handleResponse. rewrite H. reflexivity. Qed.

Lemma headers_forEach_copy h :
  forall w,
    headers_forEach h (fun head value => responseHeaders_set value head) w
    = (withResponseHeaders (copyHeaders h (responseHeaders w)) w, Ok tt).
Proof.
  induction h as [|[n v] rest IH]; intros w; simpl.
  - unfold ret, withResponseHeaders. rewrite world_eta. reflexivity.
  - unfold bindE, responseHeaders_set, modify. simpl. rewrite IH. reflexivity.
Qed.

(** Last write wins: a name written by [h] holds the value of the last
    entry of [h] under that name, any other name keeps what it had. *)
Lemma copyHeaders_lookup h :
  forall (m : gmap string string) k,
    copyHeaders h m !! k =
      match lastWritten k h with
      | Some v => Some v
      | None => m !! k
      end.
Proof.
  induction h as [|[n v] rest IH]; intros m k; simpl; [reflexivity|].
  rewrite IH. destruct (lastWritten k rest); [reflexivity|].
  destruct (String.eqb (lower n) k) eqn:E.
  - apply String.eqb_eq in E. subst k. apply lookup_insert_eq.
  - apply String.eqb_neq in E. apply lookup_insert_ne. exact E.
Qed.

Lemma lastWritten_In h n v :
  In (n, v) h -> exists v', lastWritten (lower n) h = Some v'.
Proof.
  induction h as [|[n0 v0] rest IH]; simpl; intros Hin; [contradiction|].
  destruct Hin as [Heq|Hin].
  - injection Heq as -> ->. destruct (lastWritten (lower n) rest); eauto.
    rewrite String.eqb_refl. eauto.
  - destruct (IH Hin) as [v' ->]. eauto.
Qed.

(** On the server, a redirect that names its target sets the status of the
    page response and copies its headers; a target that is a path is handed
    to the router as well. *)
Lemma handleResponse_server_redirect r url w :
  isRedirectResponse r = true ->
  headers_get (headers r) LocationHeader = Some url ->
  handleResponse true r w
  = (withResponseHeaders (copyHeaders (headers r) (responseHeaders w))
       (withStatusCode (status r)
          (if String.prefix "/" url
           then withNavigations (navigations w ++ [Navigate url true]) w
           else w)),
     Ok tt).
Proof.
  intros Hred Hloc. unfold handleResponse. rewrite Hred.
  unfold startTransition, redirectTransition, bindE at 1 2. rewrite Hloc. simpl.
  destruct (String.prefix "/" url); simpl;
    unfold bindE, setStatusCode, modify; simpl;
    rewrite headers_forEach_copy; reflexivity.
Qed.

Lemma handleResponse_server_redirect_headers r url w k :
  isRedirectResponse r = true ->
  headers_get (headers r) LocationHeader = Some url ->
  let w' := fst (handleResponse true r w) in
  statusCode w' = status r
  /\ responseHeaders w' !! k =
       match lastWritten k (headers r) with
       | Some v => Some v
       | None => responseHeaders w !! k
       end.
Proof.
  intros Hred Hloc. rewrite (handleResponse_server_redirect r url w Hred Hloc).
  simpl. split; [reflexivity|].
  rewrite copyHeaders_lookup. destruct (String.prefix "/" url); reflexivity.
Qed.

End RedirectFacts.

Section RedirectClaims.

(** C10, as the spec states it, fails in the browser: there
    [startTransition] runs the navigation branch in a microtask, the
    [TypeError] rejects a promise that nobody reads, and handling a 307
    response without [Location] header completes without a navigation. *)
Lemma handleResponse_redirect_without_location_counterexample :
  ~ (forall isServer r w,
       isRedirectResponse r = true ->
       headers_get (headers r) LocationHeader = None ->
       exists e, snd (handleResponse isServer r w) = Throw e).
Proof.
  intros claim.
  destruct (claim false (mkResponse 307 [("cache-control", "no-store")])
              initialWorld eq_refl eq_refl) as [e He].
  vm_compute in He. discriminate He.
Qed.

(** C10 (amended): for every response with redirect status whose
    [Location] header is absent (the accessor returns [null]), the navigation
    branch of [handleResponse] reads the [null] target and calls [startsWith]
    on it: in both runtimes the branch throws a [TypeError] and no navigation
    is made.  On the server, where [startTransition] runs the branch at once,
    [handleResponse] throws that error; in the browser, where the branch runs
    in a microtask, [handleResponse] returns normally and changes nothing. *)
Theorem handleResponse_redirect_without_location r w :
  isRedirectResponse r = true ->
  headers_get (headers r) LocationHeader = None ->
  let failure :=
    Throw (Err (TypeError "Cannot read properties of null (reading 'startsWith')")) in
  (forall isServer, redirectTransition isServer r w = (w, failure))
  /\ handleResponse true r w = (w, failure)
  /\ handleResponse false r w = (w, Ok tt).
Proof.
  intros Hred Hloc.
  assert (Hbranch : forall isServer,
             redirectTransition isServer r w
             = (w, Throw (Err (TypeError
                    "Cannot read properties of null (reading 'startsWith')")))).
  { intros isServer. unfold redirectTransition, bindE. rewrite Hloc. reflexivity. }
  split; [exact Hbranch|]. split.
  - unfold handleResponse. rewrite Hred.
    unfold startTransition, bindE. rewrite Hbranch. reflexivity.
  - unfold handleResponse. rewrite Hred.
    unfold startTransition, bindE. rewrite Hbranch. reflexivity.
Qed.

(** A 307 response that carries no [Location] header, on the server and in
    the browser. *)
Lemma handleResponse_redirect_without_location_witness :
  handleResponse true (mkResponse 307 [("cache-control", "no-store")]) initialWorld
  = (initialWorld,
     Throw (Err (TypeError "Cannot read properties of null (reading 'startsWith')")))
  /\ handleResponse false (mkResponse 307 [("cache-control", "no-store")]) initialWorld
     = (initialWorld, Ok tt).
Proof.
  exact (proj2 (handleResponse_redirect_without_location
                  (mkResponse 307 [("cache-control", "no-store")]) initialWorld
                  eq_refl eq_refl)).
Defined.

(** C5 fails on the code at a redirect without [Location] header handled on
    the server: the transition throws before [setStatusCode] is reached, so
    the page response keeps its status and receives none of the headers. *)
Theorem handleResponse_server_status_not_set :
  let out := handleResponse true (mkResponse 302 [("set-cookie", "sid=1")]) initialWorld in
  snd out = Throw (Err (TypeError "Cannot read properties of null (reading 'startsWith')"))
  /\ statusCode (fst out) = 200
  /\ responseHeaders (fst out) !! "set-cookie" = None.
Proof. repeat split. Qed.

End RedirectClaims.

(** ** The fetch wrapper *)

Section WrapperFacts.

Lemma strictEq_sentinel r : strictEq r (VBool true) = true <-> r = VBool true.
Proof.
  destruct r; simpl; split; intros H; try discriminate H; try reflexivity.
  - destruct b; [reflexivity | discriminate H].
  - injection H as ->. reflexivity.
Qed.

Lemma isNoOpRefetch_pass key info w :
  reachesFetcher key info -> isNoOpRefetch key info w = (w, Ok false).
Proof.
  unfold reachesFetcher, isNoOpRefetch. intros [H|[H|H]].
  - rewrite H. reflexivity.
  - rewrite H. reflexivity.
  - destruct (_ && _); [|reflexivity].
    unfold bindE, liftC. rewrite H. reflexivity.
Qed.


(** What the wrapper does once the refetch test has let it through. *)
Lemma resourceFetcher_call isServer fetcher key info w :
  reachesFetcher key info ->
  let called := withFetcherCalls (fetcherCalls w ++ [(key, eventFor isServer)]) w in
  resourceFetcher isServer fetcher key info w =
    match fetcher key (eventFor isServer) with
    | Ok (Resp r) =>
        match dispatchResponse isServer r called with
        | (w', Ok _) => (w', Ok (Resp r))
        | (w', Throw (Resp r')) =>
            match dispatchResponse isServer r' w' with
            | (w'', Ok _) => (w'', Ok (Resp r'))
            | (w'', Throw e) => (w'', Throw e)
            end
        | (w', Throw e) => (w', Throw e)
        end
    | Ok v => (called, Ok v)
    | Throw (Resp r) =>
        match dispatchResponse isServer r called with
        | (w', Ok _) => (w', Ok (Resp r))
        | (w', Throw e) => (w', Throw e)
        end
    | Throw e => (called, Throw e)
    end.
Proof.
  intros Hreach called. unfold resourceFetcher, tryCatch.
  unfold bindE at 1. rewrite (isNoOpRefetch_pass key info w Hreach).
  unfold callFetcher, bindE, recordFetcherCall, modify. fold called.
  destruct (fetcher key (eventFor isServer)) as [[v|r|err]|[v|r|err]]; simpl;
    try reflexivity.
  destruct (dispatchResponse isServer r called) as [w' [[]|[v|r'|err]]];
    reflexivity.
Qed.

(** A redirect is the resolved value of the wrapper whenever handling it
    completes: always on a client, where the handling is deferred, and on
    the server when the redirect names its target. *)
Lemma resourceFetcher_redirect_resolves isServer fetcher key info w r :
  reachesFetcher key info ->
  (fetcher key (eventFor isServer) = Ok (Resp r)
   \/ fetcher key (eventFor isServer) = Throw (Resp r)) ->
  (isServer = false \/ exists url, headers_get (headers r) LocationHeader = Some url) ->
  snd (resourceFetcher isServer fetcher key info w) = Ok (Resp r).
Proof.
  intros Hreach Hout Hok.
  rewrite (resourceFetcher_call isServer fetcher key info w Hreach).
  set (called := withFetcherCalls _ w).
  assert (Hd : exists w', dispatchResponse isServer r called = (w', Ok tt)).
  { unfold dispatchResponse. destruct Hok as [-> | [url Hloc]].
    - eexists. reflexivity.
    - destruct isServer; [|eexists; reflexivity].
      destruct (isRedirectResponse r) eqn:Hred.
      + rewrite (handleResponse_server_redirect r url called Hred Hloc). eauto.
      + rewrite (handleResponse_not_redirect true r called Hred). eauto. }
  destruct Hd as [w' Hd]. destruct Hout as [-> | ->]; rewrite Hd; reflexivity.
Qed.

(** On a client the handling of a returned or thrown [Response] is left to
    a timer: the wrapper itself only records the call and queues it. *)
Lemma resourceFetcher_client_defers fetcher key info w r :
  reachesFetcher key info ->
  (fetcher key AmbientPageEvent = Ok (Resp r)
   \/ fetcher key AmbientPageEvent = Throw (Resp r)) ->
  let called := withFetcherCalls (fetcherCalls w ++ [(key, AmbientPageEvent)]) w in
  resourceFetcher false fetcher key info w
  = (withTimers (timers called ++ [r]) called, Ok (Resp r)).
Proof.
  intros Hreach Hout called.
  pose proof (resourceFetcher_call false fetcher key info w Hreach) as Hcall.
  simpl in Hcall. fold called in Hcall. rewrite Hcall.
  destruct Hout as [-> | ->]; reflexivity.
Qed.

(** A fetcher that returns a redirect to [/login] on a client: the value of
    the resource is the response, and when the timer fires there is exactly
    one navigation, to [/login], with replace semantics. *)
Example client_redirect_to_login :
  let r := mkResponse 302 [("location", "/login")] in
  let out := resourceFetcher false (fun _ _ => Ok (Resp r)) (VBool true)
               (mkInfo (Plain VUndefined) (VBool false)) initialWorld in
  snd out = Ok (Resp r)
  /\ navigations (fst out) = []
  /\ navigations (runTimers false (fst out)) = [Navigate "/login" true]
  /\ timers (runTimers false (fst out)) = [].
Proof. repeat split. Qed.

(** The same on the server: the status and the headers of the page response
    are set at once. *)
Example server_redirect_to_login :
  let r := mkResponse 302 [("location", "/login"); ("set-cookie", "sid=1")] in
  let out := resourceFetcher true (fun _ _ => Throw (Resp r)) (VBool true)
               (mkInfo (Plain VUndefined) (VBool false)) initialWorld in
  snd out = Ok (Resp r)
  /\ statusCode (fst out) = 302
  /\ responseHeaders (fst out) !! "location" = Some "/login"
  /\ responseHeaders (fst out) !! "set-cookie" = Some "sid=1".
Proof. repeat split. Qed.

End WrapperFacts.

Section WrapperClaims.



(** C2, as the spec states it, fails: a thrown [Response] whose status is
    not a redirect (here 500) is not re-raised; the wrapper returns it. *)
Lemma resourceFetcher_thrown_response_counterexample :
  ~ (forall isServer fetcher key info w e,
       reachesFetcher key info ->
       fetcher key (eventFor isServer) = Throw e ->
       (forall r, e = Resp r -> isRedirectResponse r = false) ->
       snd (resourceFetcher isServer fetcher key info w) = Throw e).
Proof.
  intros claim.
  specialize (claim false (fun _ _ => Throw (Resp (mkResponse 500 [])))
                (VBool true) (mkInfo (Plain VUndefined) (VBool false))
                initialWorld (Resp (mkResponse 500 []))).
  assert (H : snd (resourceFetcher false (fun _ _ => Throw (Resp (mkResponse 500 [])))
                     (VBool true) (mkInfo (Plain VUndefined) (VBool false))
                     initialWorld)
              = Throw (Resp (mkResponse 500 []))).
  { apply claim; [left; reflexivity | reflexivity |].
    intros r Hr. injection Hr as <-. reflexivity. }
  vm_compute in H. discriminate H.
Qed.

(** C2 (amended): every value thrown by the user fetcher that is not a
    [Response] is re-raised unchanged by the wrapper, which does nothing
    else than record the call.  A thrown [Response] is never re-raised: when
    its status is not a redirect it is returned as the resolved value, with
    no side effect of the handler (the server handles it at once, the client
    in a timer, and handling it does nothing). *)
Theorem resourceFetcher_thrown_value isServer fetcher key info w e :
  reachesFetcher key info ->
  fetcher key (eventFor isServer) = Throw e ->
  let called := withFetcherCalls (fetcherCalls w ++ [(key, eventFor isServer)]) w in
  match e with
  | Resp r =>
      isRedirectResponse r = false ->
      resourceFetcher isServer fetcher key info w
      = (if isServer then called else withTimers (timers called ++ [r]) called,
         Ok (Resp r))
      /\ forall server w', handleResponse server r w' = (w', Ok tt)
  | _ => resourceFetcher isServer fetcher key info w = (called, Throw e)
  end.
Proof.
  intros Hreach Hthrow called.
  pose proof (resourceFetcher_call isServer fetcher key info w Hreach) as Hcall.
  simpl in Hcall. fold called in Hcall. rewrite Hthrow in Hcall.
  destruct e as [v|r|err]; try exact Hcall.
  intros Hred. split.
  - rewrite Hcall. unfold dispatchResponse. destruct isServer.
    + rewrite (handleResponse_not_redirect true r called Hred). reflexivity.
    + reflexivity.
  - intros server w'. apply handleResponse_not_redirect. exact Hred.
Qed.

(** A fetcher that throws the string ["boom"] on the server. *)
Lemma resourceFetcher_thrown_value_witness :
  resourceFetcher true (fun _ _ => Throw (Plain (VStr "boom")))
    (VStr "posts") (mkInfo (Plain VUndefined) (VBool false)) initialWorld
  = (withFetcherCalls [(VStr "posts", FetchEvent)] initialWorld,
     Throw (Plain (VStr "boom"))).
Proof.
  apply (resourceFetcher_thrown_value true (fun _ _ => Throw (Plain (VStr "boom")))
           (VStr "posts") (mkInfo (Plain VUndefined) (VBool false)) initialWorld
           (Plain (VStr "boom"))).
  - left. reflexivity.
  - reflexivity.
Defined.

(** C4 fails on the code at a redirect without [Location] header on the
    server: handling it throws a [TypeError], which leaves the wrapper as a
    rejection, whether the fetcher returned the redirect or threw it. *)
Theorem resourceFetcher_redirect_rejected :
  let r := mkResponse 302 [] in
  let info := mkInfo (Plain VUndefined) (VBool false) in
  let failure :=
    Throw (Err (TypeError "Cannot read properties of null (reading 'startsWith')")) in
  snd (resourceFetcher true (fun _ _ => Throw (Resp r)) (VBool true) info initialWorld)
  = failure
  /\ snd (resourceFetcher true (fun _ _ => Ok (Resp r)) (VBool true) info initialWorld)
     = failure.
Proof. split; reflexivity. Qed.

End WrapperClaims.

(** ** Creation of a route-data resource *)

Section CreationFacts.

Lemma dispatchResponse_fetcherCalls isServer r w :
  fetcherCalls (fst (dispatchResponse isServer r w)) = fetcherCalls w.
Proof.
  apply (preserves_dispatchResponse fetcherCalls); intros; reflexivity.
Qed.

(** An invocation that gets through the refetch test calls the user
    fetcher once, with the key and the event of the runtime. *)
Lemma resourceFetcher_records_call isServer fetcher key info w :
  reachesFetcher key info ->
  fetcherCalls (fst (resourceFetcher isServer fetcher key info w))
  = (fetcherCalls w ++ [(key, eventFor isServer)])%list.
Proof.
  intros Hreach. rewrite (resourceFetcher_call isServer fetcher key info w Hreach).
  set (called := withFetcherCalls _ w).
  assert (Hc : fetcherCalls called
               = (fetcherCalls w ++ [(key, eventFor isServer)])%list)
    by reflexivity.
  destruct (fetcher key (eventFor isServer)) as [[v|r|err]|[v|r|err]];
    try exact Hc.
  - pose proof (dispatchResponse_fetcherCalls isServer r called) as H1.
    destruct (dispatchResponse isServer r called) as [w' [[]|[v|r'|err]]];
      simpl in *; try congruence.
    pose proof (dispatchResponse_fetcherCalls isServer r' w') as H2.
    destruct (dispatchResponse isServer r' w') as [w'' [[]|e]]; simpl in *;
      congruence.
  - pose proof (dispatchResponse_fetcherCalls isServer r called) as H1.
    destruct (dispatchResponse isServer r called) as [w' [[]|e]];
      simpl in *; congruence.
Qed.

Lemma load_completes isServer fetcher source refetching current w :
  exists resource,
    snd (load source (resourceFetcher isServer fetcher) refetching current w)
    = Ok resource.
Proof.
  unfold load.
  destruct (match source with SourceValue v => v | SourceFn f => f tt end)
    as [| |[|]| | | | |]; try (eexists; reflexivity);
    destruct (resourceFetcher _ _ _ _ w) as [w' [x|e]]; eexists; reflexivity.
Qed.

(** [createRouteData] in one step: a fresh handle, the first load, the
    registration of the handle. *)
Lemma createRouteData_unfold isServer fetcher options w :
  exists loaded resource,
    load (keyOrTrue (opt_key options)) (resourceFetcher isServer fetcher)
      (VBool false) (opt_initialValue options)
      (withNextHandle (S (nextHandle w)) w) = (loaded, Ok resource)
    /\ createRouteData isServer fetcher options w
       = (withResources
            (if bool_decide (nextHandle w ∈ resources loaded) then resources loaded
             else resources loaded ++ [nextHandle w]) loaded,
          Ok (resource, nextHandle w)).
Proof.
  unfold createRouteData, createResource, bindE, freshHandle. simpl.
  destruct (load_completes isServer fetcher (keyOrTrue (opt_key options))
              (VBool false) (opt_initialValue options)
              (withNextHandle (S (nextHandle w)) w)) as [resource Hres].
  destruct (load _ _ _ _ _) as [loaded c]. simpl in Hres. subst c.
  exists loaded, resource. split; reflexivity.
Qed.

Lemma createRouteData_fetcherCalls isServer fetcher options w :
  fetcherCalls (fst (createRouteData isServer fetcher options w))
  = fetcherCalls
      (fst (load (keyOrTrue (opt_key options)) (resourceFetcher isServer fetcher)
              (VBool false) (opt_initialValue options)
              (withNextHandle (S (nextHandle w)) w))).
Proof.
  destruct (createRouteData_unfold isServer fetcher options w)
    as [loaded [resource [Hload ->]]].
  rewrite Hload. reflexivity.
Qed.

End CreationFacts.

Section CreationClaims.

(** C1, as the spec states it, fails: with the [key] option [undefined]
    (the option left out) the source handed to the resource is [true], and
    the first load calls the user fetcher. *)
Lemma createRouteData_falsy_key_counterexample :
  ~ (forall isServer fetcher initial w k,
       In k [VBool false; VNull; VUndefined] ->
       fetcherCalls
         (fst (createRouteData isServer fetcher (mkOptions (SourceValue k) initial) w))
       = fetcherCalls w).
Proof.
  intros claim.
  specialize (claim true (fun _ _ => Ok (Plain (VStr "data"))) (Plain VUndefined)
                initialWorld VUndefined).
  assert (Hin : In VUndefined [VBool false; VNull; VUndefined])
    by (right; right; left; reflexivity).
  specialize (claim Hin). vm_compute in claim. discriminate claim.
Qed.

(** C1 (amended): a [key] option given as a nullary function that returns
    [false], [null] or [undefined] denotes "do not fetch": the resource
    makes no fetch and the user fetcher is not invoked.  With the [key]
    option [undefined] (left out) the source is [true], and the first load
    invokes the user fetcher once, with the key [true]. *)
Theorem createRouteData_key_source isServer fetcher initial w :
  (forall f, isDoNotFetch (f tt) = true ->
     let out := createRouteData isServer fetcher (mkOptions (SourceFn f) initial) w in
     fetcherCalls (fst out) = fetcherCalls w
     /\ snd out = Ok (Unfetched initial, nextHandle w))
  /\ fetcherCalls
       (fst (createRouteData isServer fetcher
               (mkOptions (SourceValue VUndefined) initial) w))
     = (fetcherCalls w ++ [(VBool true, eventFor isServer)])%list.
Proof.
  split.
  - intros f Hf. unfold createRouteData, createResource, bindE, freshHandle, load.
    simpl. destruct (f tt) as [| |[|]| | | | |]; try discriminate Hf;
      split; reflexivity.
  - rewrite createRouteData_fetcherCalls. simpl. unfold load.
    pose proof (resourceFetcher_records_call isServer fetcher (VBool true)
                  (mkInfo initial (VBool false))
                  (withNextHandle (S (nextHandle w)) w)) as H.
    destruct (resourceFetcher _ _ _ _ _) as [w' [x|e]]; simpl in *;
      apply H; left; reflexivity.
Qed.

(** A key function that returns [null]. *)
Lemma createRouteData_key_source_witness :
  fetcherCalls
    (fst (createRouteData false (fun _ _ => Ok (Plain (VStr "data")))
            (mkOptions (SourceFn (fun _ => VNull)) (Plain VUndefined)) initialWorld))
  = [].
Proof.
  apply (proj1 (createRouteData_key_source false (fun _ _ => Ok (Plain (VStr "data")))
                  (Plain VUndefined) initialWorld) (fun _ => VNull)).
  reflexivity.
Defined.

End CreationClaims.

(** ** The refetch registry *)

Section RegistryFacts.

Lemma forEachHandle_calls key handles :
  forall w,
    forEachHandle handles (fun refetch => callRefetch refetch key) w
    = (withRefetchCalls (refetchCalls w ++ ((fun h => (h, key)) <$> handles)) w, Ok tt).
Proof.
  induction handles as [|h rest IH]; intros w; simpl.
  - rewrite app_nil_r. unfold ret, withRefetchCalls. rewrite world_eta. reflexivity.
  - unfold bindE, callRefetch, modify. rewrite IH. simpl.
    unfold withRefetchCalls. simpl. rewrite <- app_assoc. reflexivity.
Qed.

Lemma refetchRouteData_calls key w :
  refetchRouteData key w
  = (withRefetchCalls (refetchCalls w ++ ((fun h => (h, key)) <$> resources w)) w,
     Ok tt).
Proof. unfold refetchRouteData. apply forEachHandle_calls. Qed.

Lemma handles_of_calls (key : value) (handles : list nat) :
  fst <$> ((fun h => (h, key)) <$> handles) = handles.
Proof.
  induction handles as [|h rest IH]; simpl; [reflexivity|].
  f_equal. exact IH.
Qed.

Lemma filter_absent (h : nat) (l : list nat) :
  h ∉ l -> filter (fun x => x ≠ h) l = l.
Proof.
  induction l as [|x rest IH]; intros Hnot; [reflexivity|].
  rewrite filter_cons. apply not_elem_of_cons in Hnot as [Hne Hrest].
  destruct (decide (x ≠ h)) as [_|Heq].
  - f_equal. apply IH. exact Hrest.
  - exfalso. apply Heq. intros ->. apply Hne. reflexivity.
Qed.

(** The first load of an instance does not touch the registry. *)
Lemma load_registry isServer fetcher source refetching current w :
  let w' := fst (load source (resourceFetcher isServer fetcher) refetching current w) in
  resources w' = resources w /\ nextHandle w' = nextHandle w
  /\ refetchCalls w' = refetchCalls w.
Proof.
  repeat split.
  - apply (preserves_load resources); intros; reflexivity.
  - apply (preserves_load nextHandle); intros; reflexivity.
  - apply (preserves_load refetchCalls); intros; reflexivity.
Qed.

Lemma createRouteData_registry isServer fetcher options w :
  registryInv w ->
  let out := createRouteData isServer fetcher options w in
  (exists resource, snd out = Ok (resource, nextHandle w))
  /\ (nextHandle w ∉ resources w)
  /\ resources (fst out) = (resources w ++ [nextHandle w])%list
  /\ nextHandle (fst out) = S (nextHandle w).
Proof.
  intros [Hnd Hbound].
  assert (Hfresh : nextHandle w ∉ resources w).
  { intros Hin. apply Hbound in Hin. lia. }
  destruct (createRouteData_unfold isServer fetcher options w)
    as [loaded [resource [Hload Hcreate]]].
  pose proof (load_registry isServer fetcher (keyOrTrue (opt_key options))
                (VBool false) (opt_initialValue options)
                (withNextHandle (S (nextHandle w)) w)) as Hreg.
  simpl in Hreg. rewrite Hload in Hreg. simpl in Hreg.
  destruct Hreg as [Hres [Hnext _]].
  simpl. rewrite Hcreate. simpl. rewrite Hres.
  rewrite (bool_decide_eq_false_2 _ Hfresh).
  repeat split; eauto.
Qed.

Lemma reachable_registryInv w : reachable w -> registryInv w.
Proof.
  induction 1 as [|op w Hreach IH].
  - split; [constructor|]. intros h Hin. simpl in Hin. inversion Hin.
  - destruct op as [isServer fetcher options|refetch|key]; simpl.
    + destruct (createRouteData_registry isServer fetcher options w IH)
        as [_ [Hfresh [Hres Hnext]]].
      destruct IH as [Hnd Hbound]. split.
      * rewrite Hres. apply NoDup_app. repeat split; try assumption.
        -- intros x Hx Hx'. apply list_elem_of_singleton in Hx'. subst x.
           contradiction.
        -- apply NoDup_singleton.
      * intros h Hin. rewrite Hres in Hin. rewrite Hnext.
        apply elem_of_app in Hin as [Hin|Hin].
        -- apply Hbound in Hin. lia.
        -- apply list_elem_of_singleton in Hin. subst h. lia.
    + destruct IH as [Hnd Hbound]. split; simpl.
      * apply NoDup_filter. exact Hnd.
      * intros h Hin. apply list_elem_of_filter in Hin as [_ Hin].
        apply Hbound. exact Hin.
    + rewrite refetchRouteData_calls. exact IH.
Qed.

End RegistryFacts.

Section RegistryClaims.

(** C8: in every state the registry can reach, the handles it holds are
    pairwise distinct, one per live instance.  [createRouteData] adds the
    new instance's handle, which was not there before; the cleanup of a
    scope removes its handle and nothing else, and changes nothing when the
    handle is absent; after the cleanup a match-all [refetchRouteData()]
    completes without throwing and invokes each remaining handle exactly
    once, and not the removed one. *)
Theorem registry_lifecycle w :
  reachable w ->
  NoDup (resources w)
  /\ (forall isServer fetcher options,
        let out := createRouteData isServer fetcher options w in
        (exists resource, snd out = Ok (resource, nextHandle w))
        /\ (nextHandle w ∉ resources w)
        /\ resources (fst out) = (resources w ++ [nextHandle w])%list)
  /\ (forall refetch,
        let torn := fst (cleanup refetch w) in
        snd (cleanup refetch w) = Ok tt
        /\ resources torn = filter (fun h => h ≠ refetch) (resources w)
        /\ (refetch ∉ resources w -> torn = w)
        /\ let out := refetchRouteData VUndefined torn in
           snd out = Ok tt
           /\ exists calls,
                refetchCalls (fst out) = (refetchCalls torn ++ calls)%list
                /\ fst <$> calls = resources torn
                /\ snd <$> calls = replicate (length calls) VUndefined
                /\ NoDup (fst <$> calls)
                /\ (refetch ∉ fst <$> calls)
                /\ (forall h, h ∈ resources w -> h ≠ refetch -> h ∈ fst <$> calls)).
Proof.
  intros Hreach. pose proof (reachable_registryInv w Hreach) as Hinv.
  split; [exact (proj1 Hinv)|]. split.
  - intros isServer fetcher options.
    destruct (createRouteData_registry isServer fetcher options w Hinv)
      as [Hout [Hfresh [Hres _]]].
    repeat split; assumption.
  - intros refetch. simpl.
    split; [reflexivity|]. split; [reflexivity|]. split.
    { intros Habsent. unfold withResources. rewrite (filter_absent _ _ Habsent).
      apply world_eta. }
    rewrite refetchRouteData_calls. simpl.
    split; [reflexivity|].
    exists ((fun h => (h, VUndefined)) <$> filter (fun h => h ≠ refetch) (resources w)).
    rewrite handles_of_calls.
    split; [reflexivity|]. split; [reflexivity|]. split.
    { induction (filter (fun h => h ≠ refetch) (resources w)) as [|h rest IH];
        simpl; [reflexivity | f_equal; exact IH]. }
    split; [apply NoDup_filter; exact (proj1 Hinv)|]. split.
    + intros Hin. apply list_elem_of_filter in Hin as [Hne _]. apply Hne. reflexivity.
    + intros h Hin Hne. apply list_elem_of_filter. split; assumption.
Qed.

(** Two instances created on a client page; the scope of the first one is
    torn down, and a match-all refetch then calls the handle of the second
    one only. *)
Lemma registry_lifecycle_witness :
  reachable twoInstances
  /\ exists calls,
       refetchCalls (fst (refetchRouteData VUndefined (fst (cleanup 0%nat twoInstances))))
       = calls
       /\ fst <$> calls = [1%nat].
Proof.
  assert (Hreach : reachable twoInstances).
  { unfold twoInstances. apply reachable_step, reachable_step, reachable_initial. }
  split; [exact Hreach|].
  destruct (proj2 (proj2 (registry_lifecycle twoInstances Hreach)) 0%nat)
    as (_ & _ & _ & _ & calls & Hcalls & Hhandles & _).
  exists calls. split; [exact Hcalls | exact Hhandles].
Defined.

End RegistryClaims.


(** * Further properties of the code *)

(** ** Key matching: scalars, prefixes, extra fields *)

Section KeyMatcherFurtherFacts.

Lemma indexedFrom_app l1 :
  forall i l2,
    indexedFrom i (l1 ++ l2)
    = (indexedFrom i l1 ++ indexedFrom (i + List.length l1) l2)%list.
Proof.
  induction l1 as [|x rest IH]; intros i l2; simpl.
  - rewrite Nat.add_0_r. reflexivity.
  - rewrite IH. replace (S i + List.length rest)%nat with (i + S (List.length rest))%nat
      by lia. reflexivity.
Qed.

(** The elements of a prefix of an array are read back from the array. *)
Lemma prefix_entry p rest k bv :
  In (k, bv) (indexedFrom 0 p) ->
  propOf (VArr (p ++ rest)) k = Data bv /\ In bv p.
Proof.
  intros Hin.
  destruct (indexedFrom_In _ _ _ _ Hin) as [Hbv [j [-> [Hlt Hn]]]]. simpl.
  rewrite app_nth1 by exact Hlt. rewrite Hn. split; [reflexivity | exact Hbv].
Qed.

Lemma lookupOwn_app_other k k' v ps :
  k' <> k -> lookupOwn k' (ps ++ [(k, v)]) = lookupOwn k' ps.
Proof.
  intros Hne. induction ps as [|[k0 v0] rest IH]; simpl.
  - destruct (propKey_eqb k' k) eqn:E; [|reflexivity].
    apply propKey_eqb_eq in E. contradiction.
  - rewrite IH. reflexivity.
Qed.

Lemma someMismatch_ext (a a' : operand) entries :
  (forall k bv, In (k, bv) entries -> getProp a k = getProp a' k) ->
  someMismatch a entries = someMismatch a' entries.
Proof.
  induction entries as [|[k bv] rest IH]; intros Hext; simpl; [reflexivity|].
  rewrite (Hext k bv) by (left; reflexivity).
  destruct (getProp a' k) as [av|e]; simpl; [|reflexivity].
  destruct (partialDeepEqual av bv) as [[|]|e]; simpl; try reflexivity.
  apply IH. intros k' bv' Hin. apply (Hext k' bv'). right. exact Hin.
Qed.

Lemma getProp_extra_field ps k v k' :
  k' <> k -> getProp (VObj (ps ++ [(k, v)])) k' = getProp (VObj ps) k'.
Proof.
  intros Hne. unfold getProp, propOf.
  rewrite (lookupOwn_app_other k k' v ps Hne). reflexivity.
Qed.

(** A property of the candidate record that the pattern does not name (and
    that is not [length], which the guard reads) has no say in the result. *)
Lemma partialDeepEqual_extra_field ps k v b :
  k <> Name "length" ->
  (forall bv, ~ In (k, bv) (ownEntries b)) ->
  partialDeepEqual (VObj (ps ++ [(k, v)])) b = partialDeepEqual (VObj ps) b.
Proof.
  intros Hlen Habsent.
  assert (Hguard : lengthGuard (VObj (ps ++ [(k, v)])) b = lengthGuard (VObj ps) b).
  { unfold lengthGuard.
    rewrite (getProp_extra_field ps k v (Name "length"))
      by (intros E; apply Hlen; symmetry; exact E).
    reflexivity. }
  assert (Hloop : someMismatch (VObj (ps ++ [(k, v)])) (ownEntries b)
                  = someMismatch (VObj ps) (ownEntries b)).
  { apply someMismatch_ext. intros k' bv Hin.
    apply getProp_extra_field. intros ->. exact (Habsent bv Hin). }
  rewrite (partialDeepEqual_unfold (VObj (ps ++ [(k, v)])) b).
  rewrite (partialDeepEqual_unfold (VObj ps) b).
  rewrite Hguard, Hloop. reflexivity.
Qed.

(** Two one-element arrays compare as their elements do. *)
Lemma partialDeepEqual_singleton (a b : value) :
  partialDeepEqual (VArr [a]) (VArr [b]) = partialDeepEqual a b.
Proof.
  rewrite partialDeepEqual_structured by reflexivity. simpl.
  destruct (partialDeepEqual a b) as [[|]|e]; reflexivity.
Qed.

Lemma distinctKeys_ensureQueryKeyArray k :
  distinctKeys k = true -> distinctKeys (ensureQueryKeyArray k) = true.
Proof.
  unfold ensureQueryKeyArray. destruct k; simpl; intros H; try reflexivity;
    try exact H.
  rewrite H. reflexivity.
Qed.

Lemma nanFree_ensureQueryKeyArray k :
  nanFree k = true -> nanFree (ensureQueryKeyArray k) = true.
Proof.
  unfold ensureQueryKeyArray. destruct k; simpl; intros H; try reflexivity;
    try discriminate H; try exact H.
  rewrite H. reflexivity.
Qed.

End KeyMatcherFurtherFacts.

Section KeyMatcherFurther.

(** X1: on two keys that are neither arrays nor records, [partialMatch] is
    strict equality: [true] for identical primitives, [false] otherwise, and
    it does not throw ([null] and [undefined] included). *)
Theorem partialMatch_primitive_keys a b :
  isStructured a = false -> isStructured b = false ->
  partialMatch a b = Ok (strictEq a b).
Proof.
  intros Ha Hb. unfold partialMatch, ensureQueryKeyArray.
  replace (isArray a) with false by (destruct a; simpl in *; congruence).
  replace (isArray b) with false by (destruct b; simpl in *; congruence).
  rewrite partialDeepEqual_singleton.
  apply partialDeepEqual_primitives; assumption.
Qed.

(** The key ["posts"] against itself and against ["users"]. *)
Lemma partialMatch_primitive_keys_witness :
  partialMatch (VStr "posts") (VStr "posts") = Ok true
  /\ partialMatch (VStr "posts") (VStr "users") = Ok false
  /\ partialMatch VNull VUndefined = Ok false.
Proof.
  split; [|split].
  - exact (partialMatch_primitive_keys (VStr "posts") (VStr "posts") eq_refl eq_refl).
  - exact (partialMatch_primitive_keys (VStr "posts") (VStr "users") eq_refl eq_refl).
  - exact (partialMatch_primitive_keys VNull VUndefined eq_refl eq_refl).
Defined.

(** X2: every key that contains no [NaN] and whose records have distinct
    property names matches a copy of itself, [null] entries included.
    ([NaN] is excluded because [NaN === NaN] is [false]: a key that holds
    [NaN] does not match its copy.) *)
Theorem partialMatch_reflexive k :
  distinctKeys k = true -> nanFree k = true -> partialMatch k k = Ok true.
Proof.
  intros Hd Hn. unfold partialMatch. apply partialDeepEqual_same_object.
  - apply distinctKeys_ensureQueryKeyArray. exact Hd.
  - apply nanFree_ensureQueryKeyArray. exact Hn.
Qed.

(** The key [["posts", {id: 1, draft: null}]]. *)
Lemma partialMatch_reflexive_witness :
  partialMatch (VArr [VStr "posts"; VObj [(Name "id", VNum 1); (Name "draft", VNull)]])
               (VArr [VStr "posts"; VObj [(Name "id", VNum 1); (Name "draft", VNull)]])
  = Ok true.
Proof. apply partialMatch_reflexive; reflexivity. Defined.

(** X3: a refresh key that is a non-empty prefix of the candidate array
    and contains no [NaN] matches it, whatever follows in the candidate. *)
Theorem partialMatch_prefix p rest :
  p <> [] -> distinctKeys (VArr p) = true -> nanFree (VArr p) = true ->
  partialMatch (VArr (p ++ rest)) (VArr p) = Ok true.
Proof.
  intros Hne Hd Hn. unfold partialMatch. cbn [ensureQueryKeyArray isArray].
  apply sparseMatch_sound.
  apply sub_structured; try reflexivity.
  - intros _. destruct p; [contradiction | reflexivity].
  - intros k bv Hin. simpl in Hin.
    destruct (prefix_entry p rest k bv Hin) as [-> Hbv].
    apply sparseMatch_same_object.
    + exact (proj1 (forallb_forall _ _) Hd bv Hbv).
    + exact (proj1 (forallb_forall _ _) Hn bv Hbv).
Qed.

(** The refresh key [["posts"]] against the key [["posts", 7, {tab: "all"}]]. *)
Lemma partialMatch_prefix_witness :
  partialMatch (VArr [VStr "posts"; VNum 7; VObj [(Name "tab", VStr "all")]])
               (VArr [VStr "posts"])
  = Ok true.
Proof.
  apply (partialMatch_prefix [VStr "posts"] [VNum 7; VObj [(Name "tab", VStr "all")]]);
    [discriminate | reflexivity | reflexivity].
Defined.

(** X4: a refresh key that extends the candidate array by an element other
    than [undefined] does not match it: the matching is not symmetric. *)
Theorem partialMatch_longer_refresh_key p x rest :
  distinctKeys (VArr p) = true -> x <> VUndefined ->
  partialMatch (VArr p) (VArr (p ++ x :: rest)) = Ok false.
Proof.
  intros Hd Hx. unfold partialMatch. cbn [ensureQueryKeyArray isArray].
  rewrite partialDeepEqual_structured by reflexivity.
  replace (truthyO (propOf (VArr (p ++ x :: rest)) (Name "length"))) with true.
  2:{ simpl. rewrite length_app. simpl.
      destruct (Z.of_nat (List.length p + S (List.length rest))) eqn:E;
        try reflexivity. lia. }
  rewrite andb_false_r. simpl. rewrite indexedFrom_app. simpl.
  rewrite (someMismatch_found (VArr p)); [reflexivity | reflexivity | |].
  - intros k bv Hin.
    destruct (prefix_entry p [] k bv Hin) as [Hprop Hbv].
    rewrite app_nil_r in Hprop. rewrite Hprop.
    apply partialDeepEqual_self_returns.
    exact (proj1 (forallb_forall _ _) Hd bv Hbv).
  - simpl. rewrite nth_overflow by lia. rewrite partialDeepEqual_unfold.
    destruct x; try reflexivity. contradiction.
Qed.

(** The refresh key [["posts", 7]] against the key [["posts"]]. *)
Lemma partialMatch_longer_refresh_key_witness :
  partialMatch (VArr [VStr "posts"]) (VArr [VStr "posts"; VNum 7]) = Ok false.
Proof.
  apply (partialMatch_longer_refresh_key [VStr "posts"] (VNum 7) []);
    [reflexivity | discriminate].
Defined.



(** X6: on keys that contain no [null], with no own property named
    [__proto__] in the refresh key, [partialMatch] returns [true] or [false]
    and never throws; [undefined] entries, missing properties and properties
    that the candidate only inherits are harmless. *)
Theorem partialMatch_total_without_null a b :
  nullFree a = true -> nullFree b = true -> noProtoKey b = true ->
  exists r, partialMatch a b = Ok r.
Proof.
  intros Ha Hb Hp. unfold partialMatch. apply partialDeepEqual_total.
  - simpl. apply nullFree_ensureQueryKeyArray. exact Ha.
  - apply nullFree_ensureQueryKeyArray. exact Hb.
  - apply noProtoKey_ensureQueryKeyArray. exact Hp.
Qed.

(** A key with an [undefined] entry facing a record that names [toString]. *)
Lemma partialMatch_total_without_null_witness :
  exists r,
    partialMatch (VArr [VUndefined; VObj []])
                 (VArr [VObj []; VObj [(Name "toString", VUndefined)]]) = Ok r.
Proof.
  apply partialMatch_total_without_null; reflexivity.
Defined.

(** X7: a property of the candidate record that the refresh key does not
    name, other than [length], is ignored: adding it to the candidate leaves
    the outcome of [partialMatch] (result or exception) as it was. *)
Theorem partialMatch_ignores_extra_field ps qs k v :
  k <> Name "length" -> ~ In k (List.map fst qs) ->
  partialMatch (VObj (ps ++ [(k, v)])) (VObj qs) = partialMatch (VObj ps) (VObj qs).
Proof.
  intros Hlen Habsent. unfold partialMatch. cbn [ensureQueryKeyArray isArray].
  rewrite !partialDeepEqual_singleton.
  apply (partialDeepEqual_extra_field ps k v (VObj qs) Hlen).
  intros bv Hin. apply Habsent. simpl in Hin.
  apply (List.in_map fst) in Hin. exact Hin.
Qed.

(** The field [tab] added to the key [{id: 1}], against the refresh key [{id: 1}]. *)
Lemma partialMatch_ignores_extra_field_witness :
  partialMatch (VObj [(Name "id", VNum 1); (Name "tab", VStr "posts")])
               (VObj [(Name "id", VNum 1)])
  = partialMatch (VObj [(Name "id", VNum 1)]) (VObj [(Name "id", VNum 1)]).
Proof.
  apply (partialMatch_ignores_extra_field [(Name "id", VNum 1)] [(Name "id", VNum 1)]
           (Name "tab") (VStr "posts")).
  - discriminate.
  - simpl. intros [H|[]]. discriminate H.
Defined.

End KeyMatcherFurther.

(** ** Redirects, the fetch wrapper and the registry: further properties *)

Section RouteFurtherFacts.

Lemma isNoOpRefetch_world key info w : fst (isNoOpRefetch key info w) = w.
Proof.
  unfold isNoOpRefetch. destruct (_ && _); [|reflexivity].
  unfold bindE, liftC. destruct (partialMatch _ _) as [m|e]; reflexivity.
Qed.

Lemma withTimers_nil w : timers w = [] -> withTimers [] w = w.
Proof. intros H. unfold withTimers. rewrite <- H. apply world_eta. Qed.

Lemma filter_fresh_last (h : nat) (l : list nat) :
  h ∉ l -> filter (fun x => x ≠ h) (l ++ [h])%list = l.
Proof.
  intros Hfresh. rewrite filter_app, (filter_absent h l Hfresh).
  rewrite filter_cons. destruct (decide (h ≠ h)) as [Hne|_]; [contradiction|].
  apply app_nil_r.
Qed.

Lemma filter_twice (h : nat) (l : list nat) :
  filter (fun x => x ≠ h) (filter (fun x => x ≠ h) l) = filter (fun x => x ≠ h) l.
Proof.
  apply filter_absent. intros Hin.
  apply list_elem_of_filter in Hin as [Hne _]. apply Hne. reflexivity.
Qed.

End RouteFurtherFacts.

Section RouteFurther.

(** X8: on the server, handling a redirect that names its target completes
    and leaves the page response with the redirect's status; every header
    name holds the value the redirect wrote last under it (names compared in
    lower case), a name the redirect does not carry keeps its value, and every
    header of the redirect is present in the page response. *)
Theorem server_redirect_sets_page_response r url w :
  isRedirectResponse r = true ->
  headers_get (headers r) LocationHeader = Some url ->
  let out := handleResponse true r w in
  snd out = Ok tt
  /\ statusCode (fst out) = status r
  /\ (forall k, responseHeaders (fst out) !! k =
                  match lastWritten k (headers r) with
                  | Some v => Some v
                  | None => responseHeaders w !! k
                  end)
  /\ (forall n v, In (n, v) (headers r) ->
        is_Some (responseHeaders (fst out) !! lower n)).
Proof.
  intros Hred Hloc. simpl.
  rewrite (handleResponse_server_redirect r url w Hred Hloc). simpl.
  assert (Hlook : forall k,
            copyHeaders (headers r) (responseHeaders w) !! k
            = match lastWritten k (headers r) with
              | Some v => Some v
              | None => responseHeaders w !! k
              end).
  { intros k. apply copyHeaders_lookup. }
  split; [reflexivity|]. split; [reflexivity|]. split; [exact Hlook|].
  intros n v Hin. rewrite Hlook.
  destruct (lastWritten_In (headers r) n v Hin) as [v' ->]. eauto.
Qed.

(** A 303 to [/login] that sets a cookie twice, over a page response that
    already has a content type. *)
Lemma server_redirect_sets_page_response_witness :
  let r := mkResponse 303 [("location", "/login"); ("set-cookie", "a=1");
                           ("set-cookie", "a=2")] in
  let w := withResponseHeaders {["content-type" := "text/html"]} initialWorld in
  statusCode (fst (handleResponse true r w)) = 303
  /\ responseHeaders (fst (handleResponse true r w)) !! "set-cookie" = Some "a=2"
  /\ responseHeaders (fst (handleResponse true r w)) !! "content-type" = Some "text/html".
Proof.
  intros r w.
  destruct (server_redirect_sets_page_response r "/login" w eq_refl eq_refl)
    as (_ & Hstatus & Hheaders & _).
  split; [exact Hstatus|].
  split; rewrite Hheaders; reflexivity.
Defined.

(** X9: on the server a redirect never assigns the browser location: a
    target that starts with [/] is handed to the router once, with replace
    semantics; any other target causes no navigation at all.  No timer is set. *)
Theorem server_redirect_navigation r url w :
  isRedirectResponse r = true ->
  headers_get (headers r) LocationHeader = Some url ->
  let w' := fst (handleResponse true r w) in
  navigations w'
  = (if String.prefix "/" url then navigations w ++ [Navigate url true]
     else navigations w)%list
  /\ timers w' = timers w.
Proof.
  intros Hred Hloc. simpl.
  rewrite (handleResponse_server_redirect r url w Hred Hloc). simpl.
  destruct (String.prefix "/" url); split; reflexivity.
Qed.

(** A redirect to another origin, on the server. *)
Lemma server_redirect_navigation_witness :
  navigations
    (fst (handleResponse true
            (mkResponse 302 [("location", "https://example.org/")]) initialWorld))
  = [].
Proof.
  apply (proj1 (server_redirect_navigation
                  (mkResponse 302 [("location", "https://example.org/")])
                  "https://example.org/" initialWorld eq_refl eq_refl)).
Defined.

(** X10: on a client, handling a redirect that names its target makes
    exactly one navigation and touches nothing else (neither the status nor
    the headers of the page response): a router navigation with replace
    semantics when the target starts with [/], an assignment of the browser
    location otherwise. *)
Theorem client_redirect_navigation r url w :
  isRedirectResponse r = true ->
  headers_get (headers r) LocationHeader = Some url ->
  handleResponse false r w
  = (withNavigations
       (navigations w
        ++ [if String.prefix "/" url then Navigate url true else LocationAssign url]) w,
     Ok tt).
Proof.
  intros Hred Hloc. unfold handleResponse. rewrite Hred.
  unfold startTransition, redirectTransition, bindE at 1 2. rewrite Hloc. simpl.
  destruct (String.prefix "/" url); reflexivity.
Qed.

(** A redirect to another origin, on a client. *)
Lemma client_redirect_navigation_witness :
  handleResponse false (mkResponse 302 [("location", "https://example.org/")]) initialWorld
  = (withNavigations [LocationAssign "https://example.org/"] initialWorld, Ok tt).
Proof.
  apply (client_redirect_navigation
           (mkResponse 302 [("location", "https://example.org/")])
           "https://example.org/" initialWorld eq_refl eq_refl).
Defined.

(** X11: an invocation of the fetch wrapper that is not a keyed refetch
    (first load, or refetch-everything), or whose refresh key matches, calls
    the user fetcher exactly once, with the current key and with the event of
    the runtime: the frozen fetch event on the server, the ambient page event
    on a client. *)
Theorem resourceFetcher_calls_fetcher_once isServer fetcher key info w :
  reachesFetcher key info ->
  fetcherCalls (fst (resourceFetcher isServer fetcher key info w))
  = (fetcherCalls w
     ++ [(key, if isServer then FetchEvent else AmbientPageEvent)])%list.
Proof. intros Hreach. apply resourceFetcher_records_call. exact Hreach. Qed.

(** A refetch for [{id: 1}] reaching the instance whose key is
    [{id: 1, tab: "posts"}], on the server. *)
Lemma resourceFetcher_calls_fetcher_once_witness :
  fetcherCalls
    (fst (resourceFetcher true (fun _ _ => Ok (Plain (VStr "fresh")))
            (VObj [(Name "id", VNum 1); (Name "tab", VStr "posts")])
            (mkInfo (Plain (VStr "cached")) (VObj [(Name "id", VNum 1)]))
            initialWorld))
  = [(VObj [(Name "id", VNum 1); (Name "tab", VStr "posts")], FetchEvent)].
Proof.
  apply (resourceFetcher_calls_fetcher_once true _ _
           (mkInfo (Plain (VStr "cached")) (VObj [(Name "id", VNum 1)])) initialWorld).
  right. right. reflexivity.
Defined.

(** X12: a value returned by the user fetcher that is not a [Response]
    becomes the resolved value of the wrapper as it is, and the wrapper does
    nothing else than call the fetcher: no navigation, no timer, no change to
    the page response. *)
Theorem resourceFetcher_plain_value isServer fetcher key info w x :
  reachesFetcher key info ->
  fetcher key (eventFor isServer) = Ok x ->
  (forall r, x <> Resp r) ->
  resourceFetcher isServer fetcher key info w
  = (withFetcherCalls (fetcherCalls w ++ [(key, eventFor isServer)]) w, Ok x).
Proof.
  intros Hreach Hret Hplain.
  rewrite (resourceFetcher_call isServer fetcher key info w Hreach). rewrite Hret.
  destruct x as [v|r|err]; try reflexivity.
  exfalso. apply (Hplain r). reflexivity.
Qed.

(** A fetcher that returns the list [["a", "b"]] on a client. *)
Lemma resourceFetcher_plain_value_witness :
  resourceFetcher false (fun _ _ => Ok (Plain (VArr [VStr "a"; VStr "b"])))
    (VBool true) (mkInfo (Plain VUndefined) (VBool true)) initialWorld
  = (withFetcherCalls [(VBool true, AmbientPageEvent)] initialWorld,
     Ok (Plain (VArr [VStr "a"; VStr "b"]))).
Proof.
  apply (resourceFetcher_plain_value false
           (fun _ _ => Ok (Plain (VArr [VStr "a"; VStr "b"])))
           (VBool true) (mkInfo (Plain VUndefined) (VBool true)) initialWorld).
  - right. left. reflexivity.
  - reflexivity.
  - discriminate.
Defined.

(** X13: a [Response] that the fetcher returns or throws is the resolved
    value of the wrapper, never a rejection, whenever the call runs on a
    client or the response carries a [Location] header. *)
Theorem resourceFetcher_response_is_value isServer fetcher key info w r :
  reachesFetcher key info ->
  (fetcher key (eventFor isServer) = Ok (Resp r)
   \/ fetcher key (eventFor isServer) = Throw (Resp r)) ->
  (isServer = false \/ exists url, headers_get (headers r) LocationHeader = Some url) ->
  snd (resourceFetcher isServer fetcher key info w) = Ok (Resp r).
Proof. apply resourceFetcher_redirect_resolves. Qed.

(** A redirect to [/login] thrown on the server. *)
Lemma resourceFetcher_response_is_value_witness :
  snd (resourceFetcher true
         (fun _ _ => Throw (Resp (mkResponse 302 [("location", "/login")])))
         (VBool true) (mkInfo (Plain VUndefined) (VBool false)) initialWorld)
  = Ok (Resp (mkResponse 302 [("location", "/login")])).
Proof.
  apply (resourceFetcher_response_is_value true _ (VBool true)
           (mkInfo (Plain VUndefined) (VBool false)) initialWorld).
  - left. reflexivity.
  - right. reflexivity.
  - right. exists "/login". reflexivity.
Defined.

(** X14: on a client the handling of a [Response] is only postponed: once
    the timer has run, the world is the one that handling the response at
    once, right after the fetcher call, would have given. *)
Theorem client_deferred_handling fetcher key info w r :
  reachesFetcher key info ->
  (fetcher key AmbientPageEvent = Ok (Resp r)
   \/ fetcher key AmbientPageEvent = Throw (Resp r)) ->
  timers w = [] ->
  runTimers false (fst (resourceFetcher false fetcher key info w))
  = fst (handleResponse false r
           (withFetcherCalls (fetcherCalls w ++ [(key, AmbientPageEvent)]) w)).
Proof.
  intros Hreach Hout Hnone.
  rewrite (resourceFetcher_client_defers fetcher key info w r Hreach Hout).
  unfold runTimers. simpl. rewrite Hnone. simpl.
  f_equal. f_equal.
  apply (withTimers_nil (withFetcherCalls (fetcherCalls w ++ [(key, AmbientPageEvent)]) w)).
  exact Hnone.
Qed.

(** A redirect to [/login] returned on a client: after the timer, one
    replace-navigation. *)
Lemma client_deferred_handling_witness :
  navigations
    (runTimers false
       (fst (resourceFetcher false
               (fun _ _ => Ok (Resp (mkResponse 302 [("location", "/login")])))
               (VBool true) (mkInfo (Plain VUndefined) (VBool false)) initialWorld)))
  = [Navigate "/login" true].
Proof.
  rewrite (client_deferred_handling
             (fun _ _ => Ok (Resp (mkResponse 302 [("location", "/login")])))
             (VBool true) (mkInfo (Plain VUndefined) (VBool false)) initialWorld
             (mkResponse 302 [("location", "/login")])).
  - reflexivity.
  - left. reflexivity.
  - left. reflexivity.
  - reflexivity.
Defined.

(** X15: on a client the fetch wrapper itself, whatever the fetcher returns
    or throws, makes no navigation and leaves the status and the headers of
    the page response alone. *)
Theorem client_fetch_touches_no_page_state fetcher key info w :
  let w' := fst (resourceFetcher false fetcher key info w) in
  statusCode w' = statusCode w
  /\ responseHeaders w' = responseHeaders w
  /\ navigations w' = navigations w.
Proof.
  unfold resourceFetcher, tryCatch, callFetcher, bindE, recordFetcherCall, modify.
  pose proof (isNoOpRefetch_world key info w) as Hw.
  destruct (isNoOpRefetch key info w) as [w0 [[|]|e]]; simpl in Hw; subst w0.
  - simpl. auto.
  - simpl. destruct (fetcher key AmbientPageEvent) as [[v|r|err]|[v|r|err]];
      simpl; auto.
  - destruct e as [v|r|err]; simpl; auto.
Qed.

(** X16: the fetch wrapper, on either runtime and whatever the fetcher
    does, never touches the registry: the set of refetch handles, the handles
    handed out and the record of refetch calls stay as they were. *)
Theorem fetch_leaves_registry isServer fetcher key info w :
  let w' := fst (resourceFetcher isServer fetcher key info w) in
  resources w' = resources w
  /\ nextHandle w' = nextHandle w
  /\ refetchCalls w' = refetchCalls w.
Proof.
  repeat split.
  - apply (preserves_resourceFetcher resources); intros; reflexivity.
  - apply (preserves_resourceFetcher nextHandle); intros; reflexivity.
  - apply (preserves_resourceFetcher refetchCalls); intros; reflexivity.
Qed.

(** X17: when the comparison of a keyed refetch throws, the wrapper rejects
    with that error; the user fetcher is not called and nothing else
    happens. *)
Theorem resourceFetcher_comparison_throws isServer fetcher key info w e :
  truthy (info_refetching info) = true ->
  info_refetching info <> VBool true ->
  partialMatch key (info_refetching info) = Throw e ->
  resourceFetcher isServer fetcher key info w = (w, Throw (Err e)).
Proof.
  intros Ht Hne Hpm. unfold resourceFetcher, tryCatch, bindE, isNoOpRefetch.
  rewrite Ht. destruct (strictEq (info_refetching info) (VBool true)) eqn:E.
  - apply strictEq_sentinel in E. contradiction.
  - simpl. unfold bindE, liftC. rewrite Hpm. reflexivity.
Qed.

(** A refetch for [[{}]] reaching the instance whose key is [[null]]. *)
Lemma resourceFetcher_comparison_throws_witness :
  resourceFetcher false (fun _ _ => Ok (Plain (VStr "fresh")))
    (VArr [VNull]) (mkInfo (Plain (VStr "cached")) (VArr [VObj []])) initialWorld
  = (initialWorld, Throw (Err (TypeError "Cannot read properties of null"))).
Proof.
  apply (resourceFetcher_comparison_throws false _ (VArr [VNull])
           (mkInfo (Plain (VStr "cached")) (VArr [VObj []])));
    [reflexivity | discriminate | reflexivity].
Defined.

(** X18: after a scope is torn down, tearing it down again changes
    nothing. *)
Theorem cleanup_idempotent refetch w :
  fst (cleanup refetch (fst (cleanup refetch w))) = fst (cleanup refetch w).
Proof.
  unfold cleanup, resources_delete, modify, withResources. simpl.
  rewrite filter_twice. reflexivity.
Qed.

(** X19: creating an instance and tearing its scope down leaves the set of
    refetch handles as it was before the creation. *)
Theorem create_then_cleanup_restores_registry isServer fetcher options w :
  reachable w ->
  resources
    (fst (cleanup (nextHandle w) (fst (createRouteData isServer fetcher options w))))
  = resources w.
Proof.
  intros Hreach. pose proof (reachable_registryInv w Hreach) as Hinv.
  destruct (createRouteData_registry isServer fetcher options w Hinv)
    as [_ [Hfresh [Hres _]]].
  simpl. rewrite Hres. apply filter_fresh_last. exact Hfresh.
Qed.

(** A third instance created on the page of [twoInstances], then torn down. *)
Lemma create_then_cleanup_restores_registry_witness :
  resources
    (fst (cleanup (nextHandle twoInstances)
            (fst (createRouteData true (fun _ _ => Ok (Plain VNull))
                    (mkOptions (SourceValue (VStr "k")) (Plain VUndefined))
                    twoInstances))))
  = resources twoInstances.
Proof.
  apply create_then_cleanup_restores_registry.
  unfold twoInstances. apply reachable_step, reachable_step, reachable_initial.
Defined.

(** X21: with a truthy literal [key], or with a [key] function that returns
    a truthy value, [createRouteData] hands that very key to the user fetcher:
    the first load calls the fetcher once, with the key and the event of the
    runtime. *)
Theorem createRouteData_truthy_key isServer fetcher initial w source k :
  (source = SourceValue k \/ exists f, source = SourceFn f /\ f tt = k) ->
  truthy k = true ->
  fetcherCalls (fst (createRouteData isServer fetcher (mkOptions source initial) w))
  = (fetcherCalls w ++ [(k, eventFor isServer)])%list.
Proof.
  intros Hsource Ht. rewrite createRouteData_fetcherCalls. simpl.
  pose proof (resourceFetcher_records_call isServer fetcher k
                (mkInfo initial (VBool false))
                (withNextHandle (S (nextHandle w)) w)) as Hcall.
  assert (Hload : forall src,
            match src with SourceValue v => v | SourceFn f => f tt end = k ->
            fetcherCalls
              (fst (load src (resourceFetcher isServer fetcher) (VBool false) initial
                      (withNextHandle (S (nextHandle w)) w)))
            = (fetcherCalls w ++ [(k, eventFor isServer)])%list).
  { intros src Hk. unfold load. rewrite Hk.
    destruct k as [| |[|]| | | | |]; try discriminate Ht;
      destruct (resourceFetcher _ _ _ _ _) as [w' [x|e]]; simpl in *;
      apply Hcall; left; reflexivity. }
  destruct Hsource as [-> | [f [-> Hf]]]; simpl.
  - rewrite Ht. apply Hload. reflexivity.
  - apply Hload. exact Hf.
Qed.

(** The key [["posts", 7]] given through a function, on a client. *)
Lemma createRouteData_truthy_key_witness :
  fetcherCalls
    (fst (createRouteData false (fun _ _ => Ok (Plain (VStr "data")))
            (mkOptions (SourceFn (fun _ => VArr [VStr "posts"; VNum 7])) (Plain VUndefined))
            initialWorld))
  = [(VArr [VStr "posts"; VNum 7], AmbientPageEvent)].
Proof.
  apply (createRouteData_truthy_key false (fun _ _ => Ok (Plain (VStr "data")))
           (Plain VUndefined) initialWorld
           (SourceFn (fun _ => VArr [VStr "posts"; VNum 7]))
           (VArr [VStr "posts"; VNum 7])).
  - right. eexists. split; reflexivity.
  - reflexivity.
Defined.

End RouteFurther.
